(** * IdleLoops Predictor: a shallow embedding of the simulation engine

    This development models [src/idleloops-predictor.user.js]: the class
    [Koviko.Prediction] (methods [updateTicks], [ticks], [exp]), the
    prediction catalogue built by [initPredictions], and the methods
    [update], [tick] and [predict] of [Koviko.Predictor].

    Modelling conventions.
    - JavaScript numbers are exact rationals ([Qc], canonical fractions with
      Leibniz equality); integer-valued quantities (tick counts, segment
      indices, loop counters) are [Z].  [NaN] and the infinities are not
      represented, except that [maxSegments = Infinity] is [None].  Division
      by zero therefore differs from the source ([Qc] gives 0); the host
      functions are assumed to keep denominators away from zero.
    - JavaScript objects used as dictionaries are [gmap string _].  Reading a
      resource that is absent yields 0 (the source guards such reads with
      [|| 0] or initialises the key beforehand through [affected]).
    - Mutation is explicit state passing.  Where a closure captures a mutable
      object (the progression record captured by [loopCost]), the model
      passes the current value of that object at every call.
    - An uncaught exception is the result [TypeError]; the two unbounded
      [for] loops of [tick] take a fuel argument and yield [OutOfFuel] when
      it is exhausted.
    - The host page (the [Koviko.globals] registry) is the record [Globals];
      the DOM is not modelled: the rows the source renders into the action
      list are collected in a list. *)

From Stdlib Require Import ZArith QArith Qcanon Qround Lqa.
From stdpp Require Import base option list strings gmap numbers.

Local Open Scope Z_scope.
Local Open Scope Qc_scope.

(** ** Numbers *)

Definition Zc (z : Z) : Qc := Q2Qc (inject_Z z).

(** [.000001], the constant of [updateTicks]. *)
Definition epsilon : Qc := Q2Qc (1 # 1000000).

(** [Math.ceil] and [Math.floor]. *)
Definition Math_ceil (x : Qc) : Z := Qceiling (this x).
Definition Math_floor (x : Qc) : Z := Qfloor (this x).

(** [Math.pow] at an integer exponent. *)
Definition Math_pow (b : Qc) (n : Z) : Qc :=
  if (n <? 0)%Z then / (b ^ Z.to_nat (- n)) else b ^ Z.to_nat n.

(** ** Results of computations that may raise *)

Inductive result (A : Type) : Type :=
  | Ok (a : A)
  | TypeError
  | OutOfFuel.
Arguments Ok {A} a.
Arguments TypeError {A}.
Arguments OutOfFuel {A}.

#[global] Instance result_ret : MRet result := fun A a => Ok a.
#[global] Instance result_bind : MBind result := fun A B f m =>
  match m with
  | Ok a => f a
  | TypeError => TypeError
  | OutOfFuel => OutOfFuel
  end.

(** ** Data model *)

(** [Koviko.Predictor~Stats] and [Koviko.Predictor~Resources]. *)
Abbreviation Stats := (gmap string Qc).
Abbreviation Resources := (gmap string Qc).

(** Read of a resource; an absent key reads as 0. *)
Definition rget (r : Resources) (k : string) : Qc := default 0 (r !! k).

(** [Koviko~DungeonFloor] *)
Record DungeonFloor := { ssChance : Qc; floor_completed : Qc }.

(** [Koviko~Action]: the host's description of an action.  [manaCost] is a
    query without arguments in the source; its value is fixed during a
    simulation pass. *)
Module Action.
Record t := mk {
  name : string;
  expMult : Qc;
  townNum : Z;
  varName : string;
  segments : Z;
  dungeonNum : nat;
  stats : gmap string Qc;
  loopStats : list string;
  manaCost : Qc
}.
End Action.

(** [Koviko.Predictor~Progression] *)
Module Progression.
Record t := mk {
  progress : Qc;
  completed : Z;
  total : Z
}.
End Progression.

(** [Koviko.Prediction~Loop].  [cost] and [tick] are curried closures in the
    source, [(p, a) => segment => ...]; the first arguments are the captured
    objects. *)
Module Loop.
Record t := mk {
  max : option (Action.t → Z);
  cost : Progression.t → Action.t → Z → Qc;
  tick : Progression.t → Action.t → Stats → Resources → Z → Qc;
  effect_segment : option (Resources → Resources);
  effect_loop : option (Resources → Resources)
}.
End Loop.

(** [Koviko.Prediction]: the fields set by the constructor. *)
Module Prediction.
Record t := mk {
  name : string;
  action : Action.t;
  _ticks : Z;
  affected : list string;
  effect : option (Resources → Resources);
  loop : option Loop.t
}.

Definition set_ticks (n : Z) (p : t) : t :=
  mk (name p) (action p) n (affected p) (effect p) (loop p).
End Prediction.

(** [Koviko.Predictor~State] *)
Module State.
Record t := mk {
  stats : Stats;
  resources : Resources;
  progress : gmap string Progression.t
}.
End State.

(** [Koviko~ListedAction] *)
Record ListedAction := { la_name : string; la_loops : Z }.

(** The host page, [Koviko.globals].  Functions without arguments are
    constants; [getCraftGuildRank().bonus] and [getAdvGuildRank().bonus] are
    the two bonus fields; [towns_total n v] is [towns[n]['total' + v]];
    [Math_sqrt] stands for the floating-point square root. *)
Record Globals := {
  statList : list string;
  towns_total : Z → string → Z;
  dungeons : list (list DungeonFloor);
  fibonacci : Z → Qc;
  precision3 : Qc → Qc;
  translateClassNames : string → Action.t;
  getSkillLevel : string → Qc;
  getLevelFromExp : Qc → Qc;
  getTotalBonusXP : string → Qc;
  getCraftGuildRank_bonus : Qc;
  getAdvGuildRank_bonus : Qc;
  goldCostLocks : Qc;
  goldCostSQuests : Qc;
  goldCostLQuests : Qc;
  Math_sqrt : Qc → Qc
}.

(** ** Koviko.Prediction *)

Section Prediction_methods.
Variable g : Globals.

(** The summand of the [reduce] in [updateTicks]:
    [i in a.stats && i in s ? a.stats[i] / (1 + getLevelFromExp(s[i]) / 100) : 0]. *)
Definition stat_cost (a : Action.t) (s : Stats) (i : string) : Qc :=
  match Action.stats a !! i, s !! i with
  | Some w, Some e => w / (1 + getLevelFromExp g e / Zc 100)
  | _, _ => 0
  end.

(** [updateTicks(a, s)]: returns the prediction with its cache written and
    the value returned to the caller. *)
Definition updateTicks (p : Prediction.t) (a : Action.t) (s : Stats)
  : Prediction.t * Z :=
  let cost := fold_left (fun cost i => cost + stat_cost a s i) (statList g) 0 in
  let n := Math_ceil (Action.manaCost a * cost - epsilon) in
  (Prediction.set_ticks n p, n).

(** [ticks()]: [this._ticks || this.updateTicks()].  A cached value of 0 is
    falsy, and the fallback call passes no arguments: [a] is [undefined],
    so the call raises (at [a.stats] when [statList] is not empty, at
    [a.manaCost] otherwise). *)
Definition ticks (p : Prediction.t) : result Z :=
  if bool_decide (Prediction._ticks p = 0%Z) then TypeError
  else Ok (Prediction._ticks p).

(** One step of the [forEach] of [exp]. *)
Definition exp_step (p : Prediction.t) (a : Action.t) (s : Stats) (i : string)
  : result Stats :=
  match Action.stats a !! i, s !! i with
  | Some w, Some e =>
      n ← ticks p;
      Ok (<[i := e + w * Action.expMult a * (Action.manaCost a / Zc n)
                   * getTotalBonusXP g i]> s)
  | _, _ => Ok s
  end.

Fixpoint exp_each (p : Prediction.t) (a : Action.t) (names : list string)
  (s : Stats) : result Stats :=
  match names with
  | [] => Ok s
  | i :: names => s ← exp_step p a s i; exp_each p a names s
  end.

(** [exp(a, s)] *)
Definition exp (p : Prediction.t) (a : Action.t) (s : Stats) : result Stats :=
  exp_each p a (statList g) s.

End Prediction_methods.

(** ** Koviko.Predictor *)

(** Instrumentation: the model records when [state.resources.mana--] runs,
    the value of [state.resources.mana] read by the validity check of
    [update], and when a top-level [effect] is applied.  The log is written
    only; nothing reads it. *)
Inductive Event : Type :=
  | ManaSpent
  | ManaChecked (mana : Qc)
  | TopEffect.

(** A rendered row: the resources shown by [template] and the [isValid]
    flag. *)
Record Row := { row_resources : Resources; row_isValid : bool }.

(** What [update] works on: the prediction collection [this.predictions]
    (whose [_ticks] caches are written), the local [state] and [total], the
    rows rendered so far and the instrumentation log. *)
Record Machine := {
  predictions : gmap string Prediction.t;
  state : State.t;
  total : Qc;
  rows : list Row;
  log : list Event
}.

(** Application of an optional effect closure to the resources. *)
Definition apply_effect (f : option (Resources → Resources)) (r : Resources)
  : Resources :=
  match f with
  | Some f => f r
  | None => r
  end.

(** [segment < maxSegments], where [None] is [Infinity]. *)
Definition below (segment : Z) (maxSegments : option Z) : bool :=
  match maxSegments with
  | Some m => bool_decide (segment < m)%Z
  | None => true
  end.

(** First loop of [tick]:
    [for (; progress >= loopCost(segment); progress -= loopCost(segment++));]
    The progression captured by [loopCost] is not written here. *)
Fixpoint segment_before (fuel : nat) (loopCost : Z → Qc) (segment : Z)
  (progress : Qc) : result (Z * Qc) :=
  if bool_decide (loopCost segment ≤ progress) then
    match fuel with
    | O => OutOfFuel
    | S fuel =>
        segment_before fuel loopCost (segment + 1)%Z (progress - loopCost segment)
    end
  else Ok (segment, progress).

(** The loop-completion branch in the body of the second loop. *)
Definition complete_loop (l : Loop.t) (totalSegments : Z)
  (progression : Progression.t) (segment : Z) (r : Resources)
  : Progression.t * Z * Resources :=
  if bool_decide (totalSegments - 1 ≤ segment)%Z then
    (Progression.mk 0
       (Progression.completed progression + totalSegments)%Z
       (Progression.total progression + 1)%Z,
     (segment - totalSegments)%Z,
     apply_effect (Loop.effect_loop l) r)
  else (progression, segment, r).

(** Second loop of [tick]:
    [for (; progress >= loopCost(segment) && segment < maxSegments;
           progress -= loopCost(segment++)) { ... }].
    [loopCost] reads the progression as it is at the time of the call, in the
    condition and again in the update expression after the body has run. *)
Fixpoint segment_after (fuel : nat) (l : Loop.t) (a : Action.t)
  (maxSegments : option Z) (progress : Qc) (segment : Z)
  (progression : Progression.t) (r : Resources)
  : result (Z * Progression.t * Resources) :=
  if bool_decide (Loop.cost l progression a segment ≤ progress)
     && below segment maxSegments then
    match fuel with
    | O => OutOfFuel
    | S fuel =>
        let '(progression, segment, r) :=
          complete_loop l (Action.segments a) progression segment r in
        let r := apply_effect (Loop.effect_segment l) r in
        segment_after fuel l a maxSegments
          (progress - Loop.cost l progression a segment) (segment + 1)%Z
          progression r
    end
  else Ok (segment, progression, r).

(** What the loop branch of [tick] has computed when it reaches its
    [return]. *)
Record Ticked := {
  t_state : State.t;
  t_additionalProgress : Qc;
  t_segment : Z;
  t_maxSegments : option Z
}.

(** The value of [additionalProgress && segment < maxSegments], as the
    caller's [if (!...)] sees it. *)
Definition continues (t : Ticked) : bool :=
  bool_decide (t_additionalProgress t ≠ 0)
  && below (t_segment t) (t_maxSegments t).

Section Predictor_methods.
Variable g : Globals.

(** The loop branch of [tick], entered after [exp] has run. *)
Definition tick_loop (fuel : nat) (prediction : Prediction.t) (l : Loop.t)
  (st : State.t) : result Ticked :=
  match State.progress st !! Prediction.name prediction with
  | None => TypeError
  | Some progression =>
      let a := Prediction.action prediction in
      let totalSegments := Action.segments a in
      let maxSegments := (λ m, m a * totalSegments)%Z <$> Loop.max l in
      '(segment, progress) ←
        segment_before fuel (Loop.cost l progression a) 0%Z
          (Progression.progress progression);
      n ← ticks prediction;
      let additionalProgress :=
        Loop.tick l progression a (State.stats st) (State.resources st) segment
        * (Action.manaCost a / Zc n) in
      let progress := progress + additionalProgress in
      let progression :=
        Progression.mk (Progression.progress progression + additionalProgress)
          (Progression.completed progression) (Progression.total progression) in
      '(segment, progression, r) ←
        segment_after fuel l a maxSegments progress segment progression
          (State.resources st);
      Ok {| t_state :=
              State.mk (State.stats st) r
                (<[Prediction.name prediction := progression]> (State.progress st));
            t_additionalProgress := additionalProgress;
            t_segment := segment;
            t_maxSegments := maxSegments |}
  end.

(** [tick(prediction, state)]: the state after the tick and whether another
    tick can occur. *)
Definition tick (fuel : nat) (prediction : Prediction.t) (st : State.t)
  : result (State.t * bool) :=
  s ← exp g prediction (Prediction.action prediction) (State.stats st);
  let st := State.mk s (State.resources st) (State.progress st) in
  match Prediction.loop prediction with
  | Some l => t ← tick_loop fuel prediction l st; Ok (t_state t, continues t)
  | None => Ok (st, true)
  end.

(** [state.resources.mana--] *)
Definition spend_mana (st : State.t) : State.t :=
  State.mk (State.stats st)
    (<["mana" := rget (State.resources st) "mana" - 1]> (State.resources st))
    (State.progress st).

(** The [for] loop of [predict], entered with the counter [ticks].  The
    condition [ticks < prediction.ticks()] is evaluated before every
    iteration; [budget] bounds the number of iterations. *)
Fixpoint predict_for (budget fuel : nat) (prediction : Prediction.t)
  (ticks_ : Z) (st : State.t) (lg : list Event)
  : result (State.t * list Event) :=
  n ← ticks prediction;
  if bool_decide (ticks_ < n)%Z then
    match budget with
    | O => OutOfFuel
    | S budget =>
        let lg := lg ++ [ManaSpent] in
        '(st, continue) ← tick fuel prediction (spend_mana st);
        if continue : bool
        then predict_for budget fuel prediction (ticks_ + 1)%Z st lg
        else Ok (st, lg)
    end
  else Ok (st, lg).

(** [predict(prediction, state)] *)
Definition predict (fuel : nat) (prediction : Prediction.t) (st : State.t)
  (lg : list Event) : result (Prediction.t * State.t * list Event) :=
  let prediction :=
    fst (updateTicks g prediction (Prediction.action prediction) (State.stats st)) in
  '(st, lg) ←
    predict_for (Z.to_nat (Prediction._ticks prediction)) fuel prediction 0%Z st lg;
  Ok (prediction, st, lg).

(** What the inner [for] loop of [update] carries from one repetition to
    the next. *)
Record Entry := {
  e_prediction : Prediction.t;
  e_state : State.t;
  e_total : Qc;
  e_isValid : bool;
  e_log : list Event
}.

(** Body of [for (let loop = 0; loop < listedAction.loops; loop++)]. *)
Definition update_rep (fuel : nat) (e : Entry) : result Entry :=
  let currentMana := rget (State.resources (e_state e)) "mana" in
  '(prediction, st, lg) ← predict fuel (e_prediction e) (e_state e) (e_log e);
  let mana := rget (State.resources st) "mana" in
  let isValid := e_isValid e && bool_decide (0 ≤ mana) in
  let total := e_total e + (currentMana - mana) in
  let '(st, lg) :=
    match Prediction.effect prediction with
    | Some f =>
        (State.mk (State.stats st) (f (State.resources st)) (State.progress st),
         lg ++ [ManaChecked mana; TopEffect])
    | None => (st, lg ++ [ManaChecked mana])
    end in
  Ok {| e_prediction := prediction; e_state := st; e_total := total;
        e_isValid := isValid; e_log := lg |}.

Fixpoint update_reps (fuel : nat) (loops : nat) (e : Entry) : result Entry :=
  match loops with
  | O => Ok e
  | S loops => e ← update_rep fuel e; update_reps fuel loops e
  end.

(** The block that makes sure the loop is represented in
    [state.progress]. *)
Definition ensure_progress (prediction : Prediction.t) (st : State.t) : State.t :=
  match Prediction.loop prediction, State.progress st !! Prediction.name prediction with
  | Some _, None =>
      State.mk (State.stats st) (State.resources st)
        (<[Prediction.name prediction :=
             Progression.mk 0 0
               (towns_total g (Action.townNum (Prediction.action prediction))
                  (Action.varName (Prediction.action prediction)))]>
           (State.progress st))
  | _, _ => st
  end.

(** The callback of [actions.forEach] in [update]. *)
Definition update_entry (fuel : nat) (m : Machine) (listedAction : ListedAction)
  : result Machine :=
  match predictions m !! la_name listedAction with
  | None => Ok m
  | Some prediction =>
      e ← update_reps fuel (Z.to_nat (la_loops listedAction))
            {| e_prediction := prediction;
               e_state := ensure_progress prediction (state m);
               e_total := total m;
               e_isValid := true;
               e_log := log m |};
      Ok {| predictions :=
              <[la_name listedAction := e_prediction e]> (predictions m);
            state := e_state e;
            total := e_total e;
            rows := rows m ++ [{| row_resources := State.resources (e_state e);
                                  row_isValid := e_isValid e |}];
            log := e_log e |}
  end.

Fixpoint update_each (fuel : nat) (m : Machine) (actions : list ListedAction)
  : result Machine :=
  match actions with
  | [] => Ok m
  | listedAction :: actions =>
      m ← update_entry fuel m listedAction; update_each fuel m actions
  end.

(** The keys of the object built by the [reduce] that computes
    [affected], in insertion order. *)
Definition affected_names (preds : gmap string Prediction.t)
  (actions : list ListedAction) : list string :=
  fold_left
    (λ keys x,
       fold_left (λ keys name, if bool_decide (name ∈ keys) then keys else keys ++ [name])
         (match preds !! la_name x with
          | Some p => Prediction.affected p
          | None => []
          end) keys)
    actions [].

(** [state.resources[x] || (state.resources[x] = 0)] *)
Definition init_resource (r : Resources) (x : string) : Resources :=
  match r !! x with
  | Some v => if bool_decide (v = 0) then <[x := 0]> r else r
  | None => <[x := 0]> r
  end.

(** The fresh [state] of [update]. *)
Definition initial_state (affected : list string) : State.t :=
  State.mk
    (fold_left (λ stats name, <[name := 0]> stats) (statList g) ∅)
    (fold_left init_resource affected {[ "mana" := Zc 250 ]})
    ∅.

(** What [update] starts from: the fresh [state], [total = 0], and nothing
    rendered. *)
Definition initial_machine (preds : gmap string Prediction.t)
  (actions : list ListedAction) : Machine :=
  {| predictions := preds;
     state := initial_state (affected_names preds actions);
     total := 0;
     rows := [];
     log := [] |}.

(** [update(actions, container, isDebug)], with a container present. *)
Definition update (fuel : nat) (preds : gmap string Prediction.t)
  (actions : list ListedAction) : result Machine :=
  update_each fuel (initial_machine preds actions) actions.

End Predictor_methods.

(** ** The prediction catalogue of [initPredictions] *)

(** [Koviko.Prediction~Parameters] *)
Record Parameters := {
  par_affected : list string;
  par_effect : option (Resources → Resources);
  par_loop : option Loop.t
}.

(** [r.k += v] and [r.k = v]. *)
Definition radd (k : string) (v : Qc) (r : Resources) : Resources :=
  <[k := rget r k + v]> r.
Definition rset (k : string) (v : Qc) (r : Resources) : Resources :=
  <[k := v]> r.

(** [l[i]] for a number [i]. *)
Definition list_at {A} (l : list A) (i : Z) : option A :=
  if bool_decide (i < 0)%Z then None else l !! Z.to_nat i.

Definition Math_max (x y : Qc) : Qc := if bool_decide (x ≤ y) then y else x.

Section Catalogue.
Variable g : Globals.

Definition plain : Parameters :=
  {| par_affected := []; par_effect := None; par_loop := None |}.

Definition with_effect (affected : list string) (f : Resources → Resources)
  : Parameters :=
  {| par_affected := affected; par_effect := Some f; par_loop := None |}.

Definition with_loop (affected : list string) (l : Loop.t) : Parameters :=
  {| par_affected := affected; par_effect := None; par_loop := Some l |}.

(** [1 + g.getLevelFromExp(s[a.loopStats[(p.completed + offset) % a.loopStats.length]]) / 100];
    [%] is the truncating remainder. *)
Definition loop_stat_factor (p : Progression.t) (a : Action.t) (s : Stats)
  (offset : Z) : Qc :=
  let i := Z.rem (Progression.completed p + offset)
             (Z.of_nat (length (Action.loopStats a))) in
  let e := default 0 (name ← list_at (Action.loopStats a) i; s !! name) in
  1 + getLevelFromExp g e / Zc 100.

(** [Math.floor((p.completed + segment) / a.segments + .0000001)] *)
Definition loops_done (p : Progression.t) (a : Action.t) (segment : Z) : Z :=
  Math_floor (Zc (Progression.completed p + segment) / Zc (Action.segments a)
              + Q2Qc (1 # 10000000)).

(** [g.getSkillLevel('Combat') * (1 + ((r.armor || 0) * g.getCraftGuildRank().bonus) / 5)] *)
Definition selfCombat (r : Resources) : Qc :=
  getSkillLevel g "Combat"
  * (1 + (rget r "armor" * getCraftGuildRank_bonus g) / Zc 5).

(** [g.dungeons[a.dungeonNum]] *)
Definition dungeon (a : Action.t) : list DungeonFloor :=
  default [] (dungeons g !! Action.dungeonNum a).

(** The floor looked up by the dungeon loops:
    [Math.floor(p.completed / a.segments + .0000001)], and whether it is
    [in] the dungeon. *)
Definition dungeon_floor (p : Progression.t) (a : Action.t)
  : option DungeonFloor :=
  list_at (dungeon a) (loops_done p a 0).

Definition healTheSick : Loop.t :=
  Loop.mk None
    (λ p a segment, fibonacci g (2 + loops_done p a segment) * Zc 5000)
    (λ p a s _ offset,
       getSkillLevel g "Magic"
       * Math_sqrt g (1 + Zc (Progression.total p) / Zc 100)
       * loop_stat_factor p a s offset)
    None
    (Some (radd "rep" (Zc 3))).

Definition fightMonsters : Loop.t :=
  Loop.mk None
    (λ p a segment,
       fibonacci g
         (Math_floor (Zc (Progression.completed p + segment)
                      - Zc (Progression.completed p) / Zc (Action.segments a)
                      + Q2Qc (1 # 10000000)))
       * Zc 10000)
    (λ p a s _ offset,
       getSkillLevel g "Combat"
       * Math_sqrt g (1 + Zc (Progression.total p) / Zc 100)
       * loop_stat_factor p a s offset)
    (Some (radd "gold" (Zc 20)))
    None.

Definition adventureGuild : Loop.t :=
  Loop.mk None
    (λ p _ segment,
       precision3 g (Math_pow (Q2Qc (12 # 10)) (Progression.completed p + segment))
       * Zc 5000000)
    (λ p a s r offset,
       (getSkillLevel g "Magic" / Zc 2 + selfCombat r)
       * loop_stat_factor p a s offset
       * Math_sqrt g (1 + Zc (Progression.total p) / Zc 1000))
    (Some (radd "mana" (Zc 200)))
    None.

Definition craftingGuild : Loop.t :=
  Loop.mk None
    (λ p _ segment,
       precision3 g (Math_pow (Q2Qc (12 # 10)) (Progression.completed p + segment))
       * Zc 2000000)
    (λ p a s _ offset,
       (getSkillLevel g "Magic" / Zc 2 + getSkillLevel g "Crafting")
       * loop_stat_factor p a s offset
       * Math_sqrt g (1 + Zc (Progression.total p) / Zc 1000))
    (Some (radd "gold" (Zc 10)))
    None.

Definition smallDungeon : Loop.t :=
  Loop.mk (Some (λ a, Z.of_nat (length (dungeon a))))
    (λ p a segment,
       precision3 g (Math_pow (Zc 2) (loops_done p a segment) * Zc 15000))
    (λ p a s _ offset,
       match dungeon_floor p a with
       | None => 0
       | Some fl =>
           (getSkillLevel g "Combat" + getSkillLevel g "Magic")
           * loop_stat_factor p a s offset
           * Math_sqrt g (1 + floor_completed fl / Zc 200)
       end)
    None
    (Some (radd "soul" 1)).

Definition largeDungeon : Loop.t :=
  Loop.mk (Some (λ a, Z.of_nat (length (dungeon a))))
    (λ p a segment,
       precision3 g (Math_pow (Zc 3) (loops_done p a segment) * Zc 500000))
    (λ p a s r offset,
       let teamCombat :=
         selfCombat r
         + getSkillLevel g "Combat" * rget r "team" / Zc 2 * getAdvGuildRank_bonus g in
       match dungeon_floor p a with
       | None => 0
       | Some fl =>
           (teamCombat + getSkillLevel g "Magic")
           * loop_stat_factor p a s offset
           * Math_sqrt g (1 + floor_completed fl / Zc 200)
       end)
    None
    (Some (radd "soul" 1)).

Definition tournament : Loop.t :=
  Loop.mk (Some (λ _, 6%Z))
    (λ p _ segment,
       precision3 g (Math_pow (Q2Qc (11 # 10)) (Progression.completed p + segment))
       * Zc 5000000)
    (λ p a s r offset,
       (getSkillLevel g "Magic" + selfCombat r)
       * loop_stat_factor p a s offset
       * Math_sqrt g (1 + Zc (Progression.total p) / Zc 1000))
    (Some (λ r,
       let r := rset "tourney" (rget r "tourney" + 1) r in
       radd "gold"
         (Zc 40 + Zc (Math_floor (rget r "tourney" / Zc 3 + Q2Qc (1 # 100000))) * Zc 20)
         r))
    None.

(** The object literal [predictions], in source order.  [r.glasses = true]
    stores 1. *)
Definition parameters : list (string * Parameters) :=
  [ ("Wander", plain);
    ("Smash Pots", with_effect ["mana"] (radd "mana" (Zc 100)));
    ("Pick Locks", with_effect ["gold"] (radd "gold" (goldCostLocks g)));
    ("Buy Glasses",
      with_effect [] (λ r, rset "glasses" 1 (radd "gold" (- Zc 10) r)));
    ("Buy Mana",
      with_effect ["mana"; "gold"]
        (λ r, rset "gold" 0 (radd "mana" (rget r "gold" * Zc 50) r)));
    ("Meet People", plain);
    ("Train Strength", plain);
    ("Short Quest", with_effect ["gold"] (radd "gold" (goldCostSQuests g)));
    ("Investigate", plain);
    ("Long Quest",
      with_effect ["gold"; "rep"]
        (λ r, radd "rep" 1 (radd "gold" (goldCostLQuests g) r)));
    ("Throw Party", with_effect ["rep"] (radd "rep" (- Zc 2)));
    ("Warrior Lessons", plain);
    ("Mage Lessons", plain);
    ("Buy Supplies",
      with_effect ["gold"]
        (λ r,
           let r := radd "gold"
                      (- (Zc 300 - Math_max (rget r "supplyDiscount" * Zc 20) 0)) r in
           rset "supplies" (rget r "supplies" + 1) r));
    ("Haggle",
      with_effect []
        (λ r, rset "supplyDiscount" (rget r "supplyDiscount" + 1)
                (radd "rep" (- 1) r)));
    ("Start Journey",
      with_effect [] (λ r, rset "supplies" (rget r "supplies" - 1) r));
    ("Explore Forest", plain);
    ("Wild Mana", with_effect ["mana"] (radd "mana" (Zc 250)));
    ("Gather Herbs", with_effect ["herbs"] (radd "herbs" 1));
    ("Hunt", with_effect ["hide"] (radd "hide" 1));
    ("Sit By Waterfall", plain);
    ("Old Shortcut", plain);
    ("Talk To Hermit", plain);
    ("Practical Magic", plain);
    ("Learn Alchemy", with_effect ["herbs"] (radd "herbs" (- Zc 10)));
    ("Brew Potions",
      with_effect ["herbs"; "potions"]
        (λ r, radd "potions" 1 (radd "herbs" (- Zc 10) r)));
    ("Train Dex", plain);
    ("Train Speed", plain);
    ("Continue On", plain);
    ("Explore City", plain);
    ("Gamble",
      with_effect ["gold"; "rep"]
        (λ r, radd "gold" (Zc 60 - Zc 20) (radd "rep" (- 1) r)));
    ("Get Drunk", with_effect ["rep"] (radd "rep" (- 1)));
    ("Purchase Mana",
      with_effect ["mana"; "gold"]
        (λ r, rset "gold" 0 (radd "mana" (rget r "gold" * Zc 50) r)));
    ("Sell Potions",
      with_effect ["gold"; "potions"]
        (λ r, radd "potions" (- 1)
                (radd "gold" (rget r "potions" * getSkillLevel g "Alchemy") r)));
    ("Read Books", plain);
    ("Gather Team",
      with_effect ["gold"]
        (λ r,
           let r := radd "gold" (- (rget r "team" * Zc 200)) r in
           rset "team" (rget r "team" + 1) r));
    ("Craft Armor",
      with_effect ["hide"]
        (λ r, rset "armor" (rget r "armor" + 1) (radd "hide" (- Zc 2) r)));
    ("Apprentice", plain);
    ("Mason", plain);
    ("Architect", plain);
    ("Heal The Sick", with_loop ["rep"] healTheSick);
    ("Fight Monsters", with_loop ["gold"] fightMonsters);
    ("Adventure Guild", with_loop ["gold"] adventureGuild);
    ("Crafting Guild", with_loop ["gold"] craftingGuild);
    ("Small Dungeon", with_loop ["soul"] smallDungeon);
    ("Large Dungeon", with_loop ["soul"] largeDungeon);
    ("Tournament", with_loop ["gold"] tournament) ].

(** The constructor of [Koviko.Prediction]. *)
Definition new_Prediction (name : string) (params : Parameters) : Prediction.t :=
  Prediction.mk name (translateClassNames g name) 0%Z
    (par_affected params) (par_effect params) (par_loop params).

(** [initPredictions]: the collection [this.predictions]. *)
Definition initPredictions : gmap string Prediction.t :=
  fold_left (λ preds np, <[np.1 := new_Prediction np.1 np.2]> preds)
    parameters ∅.

End Catalogue.

(** * Notions used in the statements *)

(** The sum of the specification: the contributions of the stat names, added
    up. *)
Fixpoint stat_sum (f : string → Qc) (names : list string) : Qc :=
  match names with
  | [] => 0
  | i :: names => f i + stat_sum f names
  end.

(** The contribution of one stat name in the words of the specification: a
    stat with no weight entry, or absent from the stats table, contributes
    0; otherwise weight / (1 + level / 100). *)
Definition contribution (g : Globals) (a : Action.t) (s : Stats) (i : string) : Qc :=
  match Action.stats a !! i with
  | None => 0
  | Some weight =>
      match s !! i with
      | None => 0
      | Some e => weight / (1 + getLevelFromExp g e / Zc 100)
      end
  end.

(** ceil(manaCost() * S - 1e-6) *)
Definition ticks_formula (g : Globals) (a : Action.t) (s : Stats) : Z :=
  Math_ceil (Action.manaCost a * stat_sum (contribution g a s) (statList g) - epsilon).

(** The experience one tick adds to stat [i] of weight [w]. *)
Definition gain (g : Globals) (p : Prediction.t) (a : Action.t) (w : Qc)
  (i : string) : Qc :=
  w * Action.expMult a * (Action.manaCost a / Zc (Prediction._ticks p))
  * getTotalBonusXP g i.


(** The validity check recorded by an event: [mana >= 0]. *)
Definition mana_ok (ev : Event) : bool :=
  match ev with
  | ManaChecked mana => bool_decide (0 ≤ mana)
  | _ => true
  end.

(** The events that close a repetition: the validity check and, when the
    prediction has a top-level effect, its application. *)
Definition closing_events (p : Prediction.t) (mana : Qc) : list Event :=
  ManaChecked mana
  :: match Prediction.effect p with Some _ => [TopEffect] | None => [] end.

(** The same prediction with another top-level effect. *)
Definition with_top_effect (f : option (Resources → Resources)) (p : Prediction.t)
  : Prediction.t :=
  Prediction.mk (Prediction.name p) (Prediction.action p) (Prediction._ticks p)
    (Prediction.affected p) f (Prediction.loop p).

Definition entry_with_top_effect (f : option (Resources → Resources)) (e : Entry)
  : Entry :=
  {| e_prediction := with_top_effect f (e_prediction e);
     e_state := e_state e;
     e_total := e_total e;
     e_isValid := e_isValid e;
     e_log := e_log e |}.

(** The cost of [n] consecutive segments from [segment] on. *)
Fixpoint cost_sum (loopCost : Z → Qc) (segment : Z) (n : nat) : Qc :=
  match n with
  | O => 0
  | S n => loopCost segment + cost_sum loopCost (segment + 1)%Z n
  end.

(** The number of mana decrements recorded in a log. *)
Fixpoint mana_spent (lg : list Event) : nat :=
  match lg with
  | [] => O
  | ManaSpent :: lg => S (mana_spent lg)
  | _ :: lg => mana_spent lg
  end.

(** * An example host *)

Module Example.

Definition q (n : Z) (d : positive) : Qc := Q2Qc (n # d).

Definition wander_action : Action.t :=
Action.mk "Wander" 1 0 "Wander" 0 0
  (list_to_map [("Per", q 2 10); ("Con", q 2 10); ("Cha", q 2 10);
                ("Spd", q 3 10); ("Luck", q 1 10)])
  [] (Zc 250).

Definition smashPots_action : Action.t :=
Action.mk "Smash Pots" 1 0 "Pots" 0 0
  (list_to_map [("Str", q 2 10); ("Per", q 2 10); ("Spd", q 6 10)])
  [] (Zc 50).

Definition healTheSick_action : Action.t :=
Action.mk "Heal The Sick" 1 0 "Heal" 3 0
  (list_to_map [("Per", q 2 10); ("Int", q 2 10); ("Cha", q 2 10);
                ("Soul", q 4 10)])
  ["Per"; "Int"; "Cha"] (Zc 5).

Definition fightMonsters_action : Action.t :=
Action.mk "Fight Monsters" 1 0 "Fight" 3 0
  (list_to_map [("Str", q 3 10); ("Spd", q 3 10); ("Con", q 3 10);
                ("Luck", q 1 10)])
  ["Spd"; "Spd"; "Spd"; "Str"; "Str"; "Str"; "Con"; "Con"; "Con"] (Zc 5).

Definition smallDungeon_action : Action.t :=
Action.mk "Small Dungeon" 1 0 "SDungeon" 7 0
  (list_to_map [("Str", q 1 10); ("Dex", q 4 10); ("Con", q 3 10);
                ("Cha", q 1 10); ("Luck", q 1 10)])
  ["Dex"; "Con"; "Dex"; "Cha"; "Dex"; "Str"; "Luck"] (Zc 5).

(** An action without stats, of mana cost 50. *)
Definition idle_action (name : string) : Action.t :=
Action.mk name 1 0 name 0 0 ∅ [] (Zc 50).

(** 1, 1, 2, 3, 5, ... *)
Fixpoint fib (n : nat) : Z * Z :=
match n with
| O => (1, 1)%Z
| S n => let '(a, b) := fib n in (b, a + b)%Z
end.

(** Square root rounded down to six decimals. *)
Definition sqrt6 (x : Qc) : Qc :=
Q2Qc (Z.sqrt (Qnum (this x) * Z.pos (Qden (this x)) * 1000000000000)
      # (Qden (this x) * 1000000)).

(** A host with a Combat skill of 4000 and no other skill, whose stat
  levels stay at 0, and whose only dungeon has no floor. *)
Definition host : Globals :=
{| statList := ["Dex"; "Str"; "Con"; "Spd"; "Per"; "Cha"; "Int"; "Luck"; "Soul"];
   towns_total := λ _ _, 0%Z;
   dungeons := [[]];
   fibonacci := λ n, Zc (fib (Z.to_nat n)).1;
   precision3 := λ x, x;
   translateClassNames := λ name,
     if bool_decide (name = "Wander") then wander_action
     else if bool_decide (name = "Smash Pots") then smashPots_action
     else if bool_decide (name = "Heal The Sick") then healTheSick_action
     else if bool_decide (name = "Fight Monsters") then fightMonsters_action
     else if bool_decide (name = "Small Dungeon") then smallDungeon_action
     else idle_action name;
   getSkillLevel := λ name, if bool_decide (name = "Combat") then Zc 4000 else 0;
   getLevelFromExp := λ _, 0;
   getTotalBonusXP := λ _, 1;
   getCraftGuildRank_bonus := 1;
   getAdvGuildRank_bonus := 1;
   goldCostLocks := Zc 10;
   goldCostSQuests := Zc 20;
   goldCostLQuests := Zc 30;
   Math_sqrt := sqrt6 |}.

(** The value of a result, with a default, and whether there is one. *)
Definition the {A} (d : A) (r : result A) : A :=
match r with Ok a => a | _ => d end.

Definition succeeded {A} (r : result A) : bool :=
match r with Ok _ => true | _ => false end.

Definition preds : gmap string Prediction.t := initPredictions host.

(** The machine of a pass over the empty list. *)
Definition fresh : Machine := initial_machine host preds [].

Definition listed (name : string) (loops : Z) : ListedAction :=
{| la_name := name; la_loops := loops |}.

(** The first repetition of an entry in a fresh pass. *)
Definition first_rep (prediction : Prediction.t) : Entry :=
{| e_prediction := prediction;
   e_state :=
     ensure_progress host prediction
       (initial_state host (Prediction.affected prediction));
   e_total := 0;
   e_isValid := true;
   e_log := [] |}.

Definition wander : Prediction.t := new_Prediction host "Wander" plain.

Definition smashPots : Prediction.t :=
new_Prediction host "Smash Pots"
  (with_effect ["mana"] (radd "mana" (Zc 100))).

Definition meetPeople : Prediction.t := new_Prediction host "Meet People" plain.

Definition healSick : Prediction.t :=
new_Prediction host "Heal The Sick" (with_loop ["rep"] (healTheSick host)).

Definition fight : Prediction.t :=
new_Prediction host "Fight Monsters" (with_loop ["gold"] (fightMonsters host)).

Definition dungeon1 : Prediction.t :=
new_Prediction host "Small Dungeon" (with_loop ["soul"] (smallDungeon host)).

(** A prediction in the middle of a run of 5 ticks. *)
Definition running (prediction : Prediction.t) : Prediction.t :=
Prediction.set_ticks 5 prediction.

(** The first tick of a run, and what it returns. *)
Definition first_tick (prediction : Prediction.t) : result (State.t * bool) :=
tick host 10 (running prediction) (e_state (first_rep prediction)).

Definition first_tick_result (prediction : Prediction.t) : State.t * bool :=
the (e_state (first_rep prediction), true) (first_tick prediction).

(** A run of Wander in a fresh state, and what it returns. *)
Definition wander_run : result (Prediction.t * State.t * list Event) :=
predict host 10 wander (initial_state host []) [].

Definition wander_run_result : Prediction.t * State.t * list Event :=
the (wander, initial_state host [], []) wander_run.

End Example.

(** * Properties *)

(** ** Generalities on results *)

Lemma bind_Ok {A B} (m : result A) (k : A → result B) (b : B) :
  m ≫= k = Ok b → ∃ a, m = Ok a ∧ k a = Ok b.
Proof. destruct m as [a| |]; simpl; [eauto | done | done]. Qed.

Ltac inv_bind H :=
  let a := fresh "x" in
  let H1 := fresh H "l" in
  let H2 := fresh H "r" in
  apply bind_Ok in H as (a & H1 & H2).

Lemma ticks_Ok (p : Prediction.t) (n : Z) :
  ticks p = Ok n ↔ Prediction._ticks p = n ∧ n ≠ 0%Z.
Proof.
  unfold ticks. case_bool_decide as Hz; split.
  - done.
  - intros [<- Hn]. done.
  - intros [= <-]. done.
  - intros [<- _]. done.
Qed.

Lemma ticks_zero (p : Prediction.t) :
  Prediction._ticks p = 0%Z → ticks p = TypeError.
Proof. intros Hz. unfold ticks. by rewrite bool_decide_eq_true_2. Qed.

Lemma ticks_nonzero (p : Prediction.t) :
  Prediction._ticks p ≠ 0%Z → ticks p = Ok (Prediction._ticks p).
Proof. intros Hz. unfold ticks. by rewrite bool_decide_eq_false_2. Qed.

(** ** The tick count *)

Lemma reduce_sum (f : string → Qc) (names : list string) (x : Qc) :
  fold_left (λ cost i, cost + f i) names x = x + stat_sum f names.
Proof.
  revert x. induction names as [|i names IH]; intros x; simpl.
  - ring.
  - rewrite IH. ring.
Qed.

Lemma stat_cost_contribution g a s i : stat_cost g a s i = contribution g a s i.
Proof. unfold stat_cost, contribution. by destruct (Action.stats a !! i), (s !! i). Qed.

Lemma stat_sum_ext (f h : string → Qc) names :
  (∀ i, f i = h i) → stat_sum f names = stat_sum h names.
Proof. intros E. induction names as [|i names IH]; simpl; [done|]. by rewrite E, IH. Qed.

(** C3. [updateTicks] returns ceil(manaCost() * S - 1e-6), S being the sum
    over the stat names of weight / (1 + level / 100) with 0 for a stat
    without weight or outside the stats table, for every prediction, action
    and stats table; the same value is written to the cache [_ticks], and
    nothing else of the prediction changes.  [updateTicks] is a total
    function: the computation always succeeds. *)
Theorem updateTicks_formula (g : Globals) (p : Prediction.t) (a : Action.t) (s : Stats) :
  (updateTicks g p a s).2 = ticks_formula g a s
  ∧ Prediction._ticks (updateTicks g p a s).1 = ticks_formula g a s
  ∧ (updateTicks g p a s).1 = Prediction.set_ticks (ticks_formula g a s) p.
Proof.
  assert (E : (updateTicks g p a s).2 = ticks_formula g a s).
  { unfold updateTicks, ticks_formula. simpl. rewrite reduce_sum.
    rewrite (stat_sum_ext _ _ _ (stat_cost_contribution g a s)).
    f_equal. ring. }
  split; [exact E|].
  unfold updateTicks in *. simpl in *. rewrite E. done.
Qed.

(** ** Arithmetic of [Zc] *)

Lemma Zc_add (a b : Z) : Zc (a + b) = Zc a + Zc b.
Proof.
  apply Qc_is_canon. unfold Zc. simpl.
  rewrite !Qred_correct. rewrite inject_Z_plus. reflexivity.
Qed.

Lemma Zc_0 : Zc 0 = 0.
Proof. by apply Qc_is_canon. Qed.

Lemma Zc_1 : Zc 1 = 1.
Proof. by apply Qc_is_canon. Qed.

Lemma Zc_nonzero (a : Z) : a ≠ 0%Z → Zc a ≠ 0.
Proof.
  intros Ha E. apply Ha.
  apply (f_equal this) in E. unfold Zc in E. simpl in E.
  assert (Hq : (inject_Z a == 0)%Q).
  { rewrite <- (Qred_correct (inject_Z a)). rewrite E. reflexivity. }
  unfold Qeq in Hq. simpl in Hq. lia.
Qed.

(** ** [exp] *)

Section Exp_facts.
Variable g : Globals.
Variable p : Prediction.t.
Variable a : Action.t.

Lemma exp_step_total s i :
  Prediction._ticks p ≠ 0%Z → ∃ s', exp_step g p a s i = Ok s'.
Proof.
  intros Hn. unfold exp_step.
  destruct (Action.stats a !! i), (s !! i); eauto.
  rewrite (ticks_nonzero p Hn). simpl. eauto.
Qed.

Lemma exp_step_other s s' i j :
  exp_step g p a s i = Ok s' → i ≠ j → s' !! j = s !! j.
Proof.
  unfold exp_step. intros H Hij.
  destruct (Action.stats a !! i), (s !! i); try (by inversion H).
  inv_bind H. inversion Hr. by rewrite lookup_insert_ne.
Qed.

Lemma exp_step_gain s s' i w e :
  Action.stats a !! i = Some w → s !! i = Some e →
  exp_step g p a s i = Ok s' → s' !! i = Some (e + gain g p a w i).
Proof.
  unfold exp_step. intros -> -> H.
  inv_bind H. apply ticks_Ok in Hl as [<- _].
  inversion Hr. by rewrite lookup_insert_eq.
Qed.

Lemma exp_each_total names s :
  Prediction._ticks p ≠ 0%Z → ∃ s', exp_each g p a names s = Ok s'.
Proof.
  intros Hn. revert s. induction names as [|i names IH]; intros s; simpl.
  - eauto.
  - destruct (exp_step_total s i Hn) as [s1 ->]. simpl. apply IH.
Qed.

Lemma exp_each_other names s s' j :
  exp_each g p a names s = Ok s' → j ∉ names → s' !! j = s !! j.
Proof.
  revert s. induction names as [|i names IH]; intros s H Hj; simpl in H.
  - by inversion H.
  - inv_bind H. apply not_elem_of_cons in Hj as [Hji Hj].
    rewrite (IH _ Hr Hj). eapply exp_step_other; eauto.
Qed.

Lemma exp_each_gain names s s' i w e :
  NoDup names → i ∈ names →
  Action.stats a !! i = Some w → s !! i = Some e →
  exp_each g p a names s = Ok s' → s' !! i = Some (e + gain g p a w i).
Proof.
  intros Hnd. revert s. induction Hnd as [|j names Hj Hnd IH]; intros s Hi Hw He H.
  - by apply elem_of_nil in Hi.
  - simpl in H. inv_bind H.
    destruct (decide (i = j)) as [->|Hij].
    + rewrite (exp_each_other _ _ _ _ Hr Hj).
      eapply exp_step_gain; eauto.
    + apply elem_of_cons in Hi as [Hi|Hi]; [done|].
      apply (IH x); auto.
      rewrite (exp_step_other _ _ _ _ Hl); auto.
Qed.

End Exp_facts.

(** ** [tick] and [predict] for an action without loop *)

Section Plain.
Variable g : Globals.
Variable fuel : nat.
Variable p : Prediction.t.
Hypothesis Hplain : Prediction.loop p = None.

Lemma tick_plain st st' b :
  tick g fuel p st = Ok (st', b) →
  b = true
  ∧ exp g p (Prediction.action p) (State.stats st) = Ok (State.stats st')
  ∧ State.resources st' = State.resources st
  ∧ State.progress st' = State.progress st.
Proof.
  unfold tick. intros H. inv_bind H. rewrite Hplain in Hr.
  inversion Hr; subst. auto.
Qed.

Lemma tick_plain_total st :
  Prediction._ticks p ≠ 0%Z → ∃ st', tick g fuel p st = Ok (st', true).
Proof.
  intros Hn. unfold tick.
  destruct (exp_each_total g p (Prediction.action p) (statList g) (State.stats st) Hn)
    as [s' Hs].
  unfold exp. rewrite Hs. simpl. rewrite Hplain. eauto.
Qed.

Lemma predict_for_plain_total budget i st lg :
  Prediction._ticks p ≠ 0%Z →
  (Prediction._ticks p - i ≤ Z.of_nat budget)%Z →
  ∃ st', predict_for g budget fuel p i st lg
         = Ok (st', lg ++ repeat ManaSpent (Z.to_nat (Prediction._ticks p - i))).
Proof.
  intros Hn. revert i st lg.
  induction budget as [|budget IH]; intros i st lg Hb; simpl;
    rewrite (ticks_nonzero p Hn); simpl; case_bool_decide as Hlt.
  - lia.
  - replace (Z.to_nat (Prediction._ticks p - i)) with O by lia.
    simpl. rewrite app_nil_r. eauto.
  - destruct (tick_plain_total (spend_mana st) Hn) as [st1 ->]. simpl.
    destruct (IH (i + 1)%Z st1 (lg ++ [ManaSpent])) as [st' ->]; [lia|].
    exists st'. do 2 f_equal. rewrite <- app_assoc. f_equal.
    replace (Z.to_nat (Prediction._ticks p - i))
      with (S (Z.to_nat (Prediction._ticks p - (i + 1)))) by lia.
    done.
  - replace (Z.to_nat (Prediction._ticks p - i)) with O by lia.
    simpl. rewrite app_nil_r. eauto.
Qed.

Lemma predict_for_plain_log budget i st lg st' lg' :
  predict_for g budget fuel p i st lg = Ok (st', lg') →
  lg' = lg ++ repeat ManaSpent (Z.to_nat (Prediction._ticks p - i)).
Proof.
  revert i st lg. induction budget as [|budget IH]; intros i st lg H;
    simpl in H; inv_bind H; case_bool_decide as Hlt; try done.
  - apply ticks_Ok in Hl as [<- _]. inversion Hr; subst.
    replace (Z.to_nat (Prediction._ticks p - i)) with O by lia.
    simpl. by rewrite app_nil_r.
  - apply ticks_Ok in Hl as [<- _].
    apply bind_Ok in Hr as ([st1 b] & Ht & Hr).
    apply tick_plain in Ht as (-> & _). apply IH in Hr. subst lg'.
    rewrite <- app_assoc. f_equal.
    replace (Z.to_nat (Prediction._ticks p - i))
      with (S (Z.to_nat (Prediction._ticks p - (i + 1)))) by lia.
    done.
  - apply ticks_Ok in Hl as [<- _]. inversion Hr; subst.
    replace (Z.to_nat (Prediction._ticks p - i)) with O by lia.
    simpl. by rewrite app_nil_r.
Qed.

(** The experience of a stat after the remaining ticks of a run. *)
Lemma predict_for_plain_stat j w :
  NoDup (statList g) → j ∈ statList g →
  Action.stats (Prediction.action p) !! j = Some w →
  (0 < Prediction._ticks p)%Z →
  ∀ budget i st lg e,
    (i ≤ Prediction._ticks p)%Z →
    (Prediction._ticks p - i ≤ Z.of_nat budget)%Z →
    State.stats st !! j = Some e →
    ∃ st' lg',
      predict_for g budget fuel p i st lg = Ok (st', lg')
      ∧ State.stats st' !! j
        = Some (e + Zc (Prediction._ticks p - i) * gain g p (Prediction.action p) w j).
Proof.
  intros Hnd Hj Hw Hpos.
  assert (Hn : Prediction._ticks p ≠ 0%Z) by lia.
  induction budget as [|budget IH]; intros i st lg e Hi Hb He; simpl;
    rewrite (ticks_nonzero p Hn); simpl; case_bool_decide as Hlt; try lia.
  - replace (Prediction._ticks p - i)%Z with 0%Z by lia.
    exists st, lg. split; [done|]. rewrite He, Zc_0. f_equal. ring.
  - destruct (tick_plain_total (spend_mana st) Hn) as [st1 Hst1].
    rewrite Hst1. simpl.
    apply tick_plain in Hst1 as (_ & Hexp & _).
    pose proof (exp_each_gain g p (Prediction.action p) (statList g)
                  (State.stats st) (State.stats st1) j w e Hnd Hj Hw He Hexp) as Hgain.
    destruct (IH (i + 1)%Z st1 (lg ++ [ManaSpent]) _ ltac:(lia) ltac:(lia) Hgain)
      as (st' & lg' & -> & Hst').
    exists st', lg'. split; [done|]. rewrite Hst'. f_equal.
    replace (Prediction._ticks p - i)%Z
      with ((Prediction._ticks p - (i + 1)) + 1)%Z by lia.
    rewrite Zc_add, Zc_1. ring.
  - replace (Prediction._ticks p - i)%Z with 0%Z by lia.
    exists st, lg. split; [done|]. rewrite He, Zc_0. f_equal. ring.
Qed.

End Plain.

(** ** Runs in general *)

Lemma predict_for_log g budget fuel p i st lg st' lg' :
  predict_for g budget fuel p i st lg = Ok (st', lg') →
  ∃ k : nat,
    lg' = lg ++ repeat ManaSpent k
    ∧ (Z.of_nat k ≤ Z.max 0 (Prediction._ticks p - i))%Z
    ∧ ((i < Prediction._ticks p)%Z → (1 ≤ k)%nat).
Proof.
  revert i st lg. induction budget as [|budget IH]; intros i st lg H;
    simpl in H; apply bind_Ok in H as (n & Hn & H);
    apply ticks_Ok in Hn as [<- _]; case_bool_decide as Hlt; try done.
  - inversion H; subst. exists O. simpl. rewrite app_nil_r. split; [done|lia].
  - apply bind_Ok in H as ([st1 b] & Ht & H). destruct b.
    + apply IH in H as (k & -> & Hk & _). exists (S k).
      rewrite <- app_assoc. split; [done|]. lia.
    + inversion H; subst. exists 1%nat. split; [done|]. lia.
  - inversion H; subst. exists O. simpl. rewrite app_nil_r. split; [done|lia].
Qed.

Lemma updateTicks_fields g p a s :
  Prediction.name (updateTicks g p a s).1 = Prediction.name p
  ∧ Prediction.action (updateTicks g p a s).1 = Prediction.action p
  ∧ Prediction.effect (updateTicks g p a s).1 = Prediction.effect p
  ∧ Prediction.loop (updateTicks g p a s).1 = Prediction.loop p
  ∧ Prediction._ticks (updateTicks g p a s).1 = (updateTicks g p a s).2.
Proof. done. Qed.

Lemma predict_Ok g fuel p st lg p' st' lg' :
  predict g fuel p st lg = Ok (p', st', lg') →
  p' = (updateTicks g p (Prediction.action p) (State.stats st)).1
  ∧ predict_for g (Z.to_nat (Prediction._ticks p')) fuel p' 0%Z st lg = Ok (st', lg').
Proof.
  unfold predict. intros H. apply bind_Ok in H as ([st1 lg1] & H1 & H2).
  inversion H2; subst. done.
Qed.

(** C2 (the code raises where the claim expects a run without ticks).  For an
    action whose weights are all zero (or absent) and whose [manaCost()] is
    50, [updateTicks] computes 0 ticks, as the claim says; but [predict] then
    raises [TypeError] at the first evaluation of its loop condition: no
    tick runs, and the caller never reaches the top-level effect. *)
Theorem zero_ticks_run_raises (g : Globals) (fuel : nat) (p : Prediction.t)
    (st : State.t) (lg : list Event) :
  (∀ i w, Action.stats (Prediction.action p) !! i = Some w → w = 0) →
  Action.manaCost (Prediction.action p) = Zc 50 →
  (updateTicks g p (Prediction.action p) (State.stats st)).2 = 0%Z
  ∧ predict g fuel p st lg = TypeError.
Proof.
  intros Hw Hm.
  assert (E : (updateTicks g p (Prediction.action p) (State.stats st)).2 = 0%Z).
  { destruct (updateTicks_formula g p (Prediction.action p) (State.stats st)) as (-> & _).
    unfold ticks_formula.
    assert (Hs : ∀ names,
      stat_sum (contribution g (Prediction.action p) (State.stats st)) names = 0).
    { induction names as [|i names IH]; simpl; [done|]. rewrite IH.
      unfold contribution.
      destruct (Action.stats (Prediction.action p) !! i) as [w|] eqn:Ei; [|ring].
      rewrite (Hw i w Ei). destruct (State.stats st !! i); [|ring].
      unfold Qcdiv. ring. }
    rewrite Hs, Hm. reflexivity. }
  split; [exact E|].
  unfold predict.
  destruct (updateTicks_fields g p (Prediction.action p) (State.stats st))
    as (_ & _ & _ & _ & Ht).
  rewrite E in Ht. rewrite Ht.
  change (Z.to_nat 0) with O. unfold predict_for.
  by rewrite (ticks_zero _ Ht).
Qed.

(** C9. For an action without loop descriptor whose tick count T is
    positive, and every stat that has a weight and is in the stats table (the
    table has the names of [statList], a list without repetition), the run
    completes after T ticks, and the experience of the stat has grown by
    weight * expMult * manaCost() * getTotalBonusXP(stat): the T
    contributions of [exp] add up to it, exactly in rational arithmetic. *)
Theorem plain_run_experience (g : Globals) (fuel : nat) (p : Prediction.t)
    (st : State.t) (lg : list Event) (j : string) (w e : Qc) :
  NoDup (statList g) → j ∈ statList g →
  Prediction.loop p = None →
  Action.stats (Prediction.action p) !! j = Some w →
  State.stats st !! j = Some e →
  (0 < (updateTicks g p (Prediction.action p) (State.stats st)).2)%Z →
  ∃ p' st' lg',
    predict g fuel p st lg = Ok (p', st', lg')
    ∧ lg' = lg ++ repeat ManaSpent
              (Z.to_nat (updateTicks g p (Prediction.action p) (State.stats st)).2)
    ∧ State.stats st' !! j
      = Some (e + w * Action.expMult (Prediction.action p)
                  * Action.manaCost (Prediction.action p) * getTotalBonusXP g j).
Proof.
  intros Hnd Hj Hplain Hw He Hpos.
  destruct (updateTicks_fields g p (Prediction.action p) (State.stats st))
    as (_ & Ha & _ & Hl & Ht).
  set (T := (updateTicks g p (Prediction.action p) (State.stats st)).2) in *.
  set (p1 := (updateTicks g p (Prediction.action p) (State.stats st)).1) in *.
  rewrite Hplain in Hl. rewrite <- Ha in Hw.
  destruct (predict_for_plain_stat g fuel p1 Hl j w Hnd Hj Hw ltac:(lia)
              (Z.to_nat T) 0%Z st lg e ltac:(lia) ltac:(lia) He)
    as (st' & lg' & Hrun & Hst').
  exists p1, st', lg'. split; [|split].
  - unfold predict. fold p1. rewrite Ht. rewrite Hrun. done.
  - apply (predict_for_plain_log g fuel p1 Hl) in Hrun.
    rewrite Hrun, Ht. do 2 f_equal. lia.
  - rewrite Hst'. f_equal. unfold gain. rewrite Ha, Ht, Z.sub_0_r.
    assert (Hz : Zc T ≠ 0) by (apply Zc_nonzero; lia).
    field. exact Hz.
Qed.

(** ** The loop branch of [tick] *)

Lemma segment_before_remainder fuel loopCost segment progress segment' remainder :
  segment_before fuel loopCost segment progress = Ok (segment', remainder) →
  remainder < loopCost segment' ∧ (0 ≤ progress → 0 ≤ remainder).
Proof.
  revert segment progress. induction fuel as [|fuel IH]; intros segment progress H;
    simpl in H; case_bool_decide as Hc; try done.
  - inversion H; subst. split; [by apply Qclt_nge|done].
  - apply IH in H as [H1 H2]. split; [done|]. intros _. apply H2.
    unfold Qcminus. exact (proj1 (Qcle_minus_iff _ _) Hc).
  - inversion H; subst. split; [by apply Qclt_nge|done].
Qed.

Lemma complete_loop_progression l n pr segment r pr' segment' r' :
  complete_loop l n pr segment r = (pr', segment', r') →
  (pr' = pr)
  ∨ (Progression.progress pr' = 0
     ∧ Progression.completed pr' = (Progression.completed pr + n)%Z
     ∧ Progression.total pr' = (Progression.total pr + 1)%Z).
Proof.
  unfold complete_loop. case_bool_decide; intros [= <- <- <-]; auto.
Qed.

Lemma segment_after_progression fuel l a mx progress segment pr r segment' pr' r' :
  segment_after fuel l a mx progress segment pr r = Ok (segment', pr', r') →
  (Progression.total pr ≤ Progression.total pr')%Z
  ∧ Progression.completed pr'
    = (Progression.completed pr
       + Action.segments a * (Progression.total pr' - Progression.total pr))%Z
  ∧ (Progression.total pr' = Progression.total pr → pr' = pr)
  ∧ ((Progression.total pr < Progression.total pr')%Z → Progression.progress pr' = 0).
Proof.
  revert progress segment pr r.
  induction fuel as [|fuel IH]; intros progress segment pr r H; simpl in H;
    destruct (bool_decide _ && below _ _) eqn:Hc; try done.
  - inversion H; subst. repeat split; first [lia | done].
  - destruct (complete_loop l (Action.segments a) pr segment r) as [[pr1 segment1] r1] eqn:Hl.
    apply IH in H as (H1 & H2 & H3 & H4).
    apply complete_loop_progression in Hl as [->|(Hp & Hcm & Ht)]; [done|].
    rewrite Hcm, Ht in *. repeat split; try lia.
    intros _. destruct (decide (Progression.total pr' = (Progression.total pr + 1)%Z)) as [E|E].
    + rewrite (H3 E). done.
    + apply H4. lia.
  - inversion H; subst. repeat split; first [lia | done].
Qed.

Lemma tick_loop_Ok fuel p l st t pr :
  State.progress st !! Prediction.name p = Some pr →
  tick_loop fuel p l st = Ok t →
  let a := Prediction.action p in
  let mx := (λ m, m a * Action.segments a)%Z <$> Loop.max l in
  ∃ segment0 remainder n segment pr' r',
    segment_before fuel (Loop.cost l pr a) 0%Z (Progression.progress pr)
      = Ok (segment0, remainder)
    ∧ ticks p = Ok n
    ∧ segment_after fuel l a mx (remainder + t_additionalProgress t) segment0
        (Progression.mk (Progression.progress pr + t_additionalProgress t)
           (Progression.completed pr) (Progression.total pr))
        (State.resources st)
      = Ok (segment, pr', r')
    ∧ t_additionalProgress t
      = Loop.tick l pr a (State.stats st) (State.resources st) segment0
        * (Action.manaCost a / Zc n)
    ∧ t_state t
      = State.mk (State.stats st) r' (<[Prediction.name p := pr']> (State.progress st))
    ∧ t_segment t = segment
    ∧ t_maxSegments t = mx.
Proof.
  intros Hpr H. unfold tick_loop in H. rewrite Hpr in H.
  apply bind_Ok in H as ([segment0 remainder] & Hb & H).
  apply bind_Ok in H as (n & Hn & H).
  apply bind_Ok in H as ([[segment pr'] r'] & Ha & H).
  inversion H; subst; simpl.
  exists segment0, remainder, n, segment, pr', r'. done.
Qed.

Lemma tick_Ok_loop g fuel p l st st' b :
  Prediction.loop p = Some l →
  tick g fuel p st = Ok (st', b) →
  ∃ s t,
    exp g p (Prediction.action p) (State.stats st) = Ok s
    ∧ tick_loop fuel p l (State.mk s (State.resources st) (State.progress st)) = Ok t
    ∧ st' = t_state t
    ∧ b = continues t.
Proof.
  intros Hl H. unfold tick in H. apply bind_Ok in H as (s & Hs & H).
  rewrite Hl in H. apply bind_Ok in H as (t & Ht & H).
  inversion H; subst. by exists s, t.
Qed.

(** C4 (as amended). After every tick of a loop action, the persisted
    [progress] is the progress made in the whole current loop: the value
    before the tick plus the tick's [additionalProgress], or 0 when the
    tick completed a loop.  It is nonnegative when it was before and the
    tick's progress is nonnegative.  What lies in [0, currentSegmentCost) is
    the remainder that the engine's greedy walk over the segments leaves,
    not the persisted field. *)
Theorem progress_within_loop (g : Globals) (fuel : nat) (p : Prediction.t)
    (l : Loop.t) (st st' : State.t) (b : bool) (pr : Progression.t) :
  Prediction.loop p = Some l →
  State.progress st !! Prediction.name p = Some pr →
  tick g fuel p st = Ok (st', b) →
  ∃ s t pr',
    exp g p (Prediction.action p) (State.stats st) = Ok s
    ∧ tick_loop fuel p l (State.mk s (State.resources st) (State.progress st)) = Ok t
    ∧ State.progress st' !! Prediction.name p = Some pr'
    ∧ ((Progression.total pr' = Progression.total pr
        ∧ Progression.progress pr' = Progression.progress pr + t_additionalProgress t)
       ∨ ((Progression.total pr < Progression.total pr')%Z
          ∧ Progression.progress pr' = 0))
    ∧ (0 ≤ Progression.progress pr → 0 ≤ t_additionalProgress t →
       0 ≤ Progression.progress pr'
       ∧ ∀ fuel' segment remainder,
           segment_before fuel' (Loop.cost l pr' (Prediction.action p)) 0%Z
             (Progression.progress pr') = Ok (segment, remainder) →
           0 ≤ remainder ∧ remainder < Loop.cost l pr' (Prediction.action p) segment).
Proof.
  intros Hl Hpr H.
  apply (tick_Ok_loop g fuel p l) in H as (s & t & Hs & Ht & -> & ->); [|done].
  exists s, t.
  destruct (tick_loop_Ok fuel p l
              (State.mk s (State.resources st) (State.progress st)) t pr Hpr Ht)
    as (segment0 & remainder & n & segment & pr' & r' & _ & _ & Ha & _ & Hst & _).
  exists pr'. rewrite Hst. simpl. rewrite lookup_insert_eq.
  apply segment_after_progression in Ha as (H1 & _ & H3 & H4). simpl in *.
  assert (Hcases :
    (Progression.total pr' = Progression.total pr
     ∧ Progression.progress pr' = Progression.progress pr + t_additionalProgress t)
    ∨ ((Progression.total pr < Progression.total pr')%Z
       ∧ Progression.progress pr' = 0)).
  { destruct (decide (Progression.total pr' = Progression.total pr)) as [E|E].
    - left. split; [done|]. by rewrite (H3 E).
    - right. split; [lia|]. apply H4. lia. }
  repeat split; try done.
  - destruct Hcases as [[_ ->]|[_ ->]]; [by apply Qcplus_nonneg_nonneg|done].
  - eapply segment_before_remainder; eauto.
    destruct Hcases as [[_ ->]|[_ ->]]; [by apply Qcplus_nonneg_nonneg|done].
  - eapply segment_before_remainder; eauto.
Qed.

(** C6. For a loop action (with a positive number of segments per loop),
    across every tick, [total] never decreases, [completed] never decreases,
    [completed] grows by the number of segments per loop times the growth of
    [total], and so [completed] grows by exactly the number of segments per
    loop exactly when [total] grows by 1. *)
Theorem completed_follows_total (g : Globals) (fuel : nat) (p : Prediction.t)
    (l : Loop.t) (st st' : State.t) (b : bool) (pr : Progression.t) :
  (0 < Action.segments (Prediction.action p))%Z →
  Prediction.loop p = Some l →
  State.progress st !! Prediction.name p = Some pr →
  tick g fuel p st = Ok (st', b) →
  ∃ pr',
    State.progress st' !! Prediction.name p = Some pr'
    ∧ (Progression.total pr ≤ Progression.total pr')%Z
    ∧ (Progression.completed pr ≤ Progression.completed pr')%Z
    ∧ (Progression.completed pr' - Progression.completed pr
       = Action.segments (Prediction.action p)
         * (Progression.total pr' - Progression.total pr))%Z
    ∧ ((Progression.completed pr' - Progression.completed pr
        = Action.segments (Prediction.action p))%Z
       ↔ (Progression.total pr' - Progression.total pr = 1)%Z).
Proof.
  intros Hseg Hl Hpr H.
  apply (tick_Ok_loop g fuel p l) in H as (s & t & Hs & Ht & -> & ->); [|done].
  destruct (tick_loop_Ok fuel p l
              (State.mk s (State.resources st) (State.progress st)) t pr Hpr Ht)
    as (segment0 & remainder & n & segment & pr' & r' & _ & _ & Ha & _ & Hst & _).
  exists pr'. rewrite Hst. simpl. rewrite lookup_insert_eq.
  apply segment_after_progression in Ha as (H1 & H2 & _). simpl in *.
  repeat split; try done; try nia.
Qed.


(** ** Repetitions and entries of [update] *)

Lemma update_rep_Ok g fuel e e' :
  update_rep g fuel e = Ok e' →
  ∃ p' st lg,
    predict g fuel (e_prediction e) (e_state e) (e_log e) = Ok (p', st, lg)
    ∧ e_prediction e' = p'
    ∧ e_state e'
      = State.mk (State.stats st)
          (apply_effect (Prediction.effect p') (State.resources st))
          (State.progress st)
    ∧ e_total e'
      = e_total e + (rget (State.resources (e_state e)) "mana"
                     - rget (State.resources st) "mana")
    ∧ e_isValid e'
      = e_isValid e && bool_decide (0 ≤ rget (State.resources st) "mana")
    ∧ e_log e' = lg ++ closing_events p' (rget (State.resources st) "mana").
Proof.
  unfold update_rep. intros H.
  apply bind_Ok in H as ([[p' st] lg] & Hp & H).
  exists p', st, lg. split; [done|].
  unfold closing_events, apply_effect.
  destruct (Prediction.effect p'); inversion H; subst; simpl;
    by destruct st.
Qed.

(** C5 (as amended). In every run that completes, the mana decrements are
    the ticks executed: at most the tick count T computed by [updateTicks]
    at the start of the run, at least one when T is positive, and exactly
    max(0, T) for an action without loop descriptor (a loop action ends its
    run at the first tick that returns "stop").  All of them come before
    the validity check and the application of the top-level effect. *)
Theorem run_mana_decrements (g : Globals) (fuel : nat) (e e' : Entry) :
  update_rep g fuel e = Ok e' →
  let p := e_prediction e in
  let T := (updateTicks g p (Prediction.action p) (State.stats (e_state e))).2 in
  ∃ (k : nat) (mana : Qc),
    e_log e' = e_log e ++ repeat ManaSpent k ++ closing_events p mana
    ∧ (Z.of_nat k ≤ Z.max 0 T)%Z
    ∧ ((0 < T)%Z → (1 ≤ k)%nat)
    ∧ (Prediction.loop p = None → Z.of_nat k = Z.max 0 T).
Proof.
  intros H p T.
  apply update_rep_Ok in H as (p' & st & lg & Hp & _ & _ & _ & _ & Hlog).
  apply predict_Ok in Hp as (Hp' & Hrun). fold p in Hp', Hrun.
  destruct (updateTicks_fields g p (Prediction.action p) (State.stats (e_state e)))
    as (_ & _ & He & Hl & Ht).
  fold T in Ht. rewrite <- Hp' in He, Hl, Ht.
  destruct (predict_for_log _ _ _ _ _ _ _ _ _ Hrun) as (k & Hk & Hle & Hpos).
  rewrite Ht, Z.sub_0_r in Hle. rewrite Ht in Hpos.
  exists k, (rget (State.resources st) "mana").
  split; [|split; [|split]]; try done.
  - rewrite Hlog, Hk, <- app_assoc. do 2 f_equal.
    unfold closing_events. by rewrite He.
  - intros Hplain. rewrite <- Hl in Hplain.
    apply (predict_for_plain_log g fuel p' Hplain) in Hrun.
    rewrite Hk in Hrun. apply app_inv_head in Hrun.
    apply (f_equal length) in Hrun. rewrite !repeat_length in Hrun.
    rewrite Ht in Hrun. lia.
Qed.

(** *** Independence of the top-level effect *)

Lemma exp_each_with_top_effect g f p a names s :
  exp_each g (with_top_effect f p) a names s = exp_each g p a names s.
Proof.
  revert s. induction names as [|i names IH]; intros s; simpl; [done|].
  change (exp_step g (with_top_effect f p) a s i) with (exp_step g p a s i).
  destruct (exp_step g p a s i); simpl; auto.
Qed.

Lemma tick_with_top_effect g fuel f p st :
  tick g fuel (with_top_effect f p) st = tick g fuel p st.
Proof.
  unfold tick, exp. simpl. rewrite exp_each_with_top_effect. done.
Qed.

Lemma predict_for_with_top_effect g budget fuel f p i st lg :
  predict_for g budget fuel (with_top_effect f p) i st lg
  = predict_for g budget fuel p i st lg.
Proof.
  revert i st lg. induction budget as [|budget IH]; intros i st lg; simpl.
  - done.
  - change (ticks (with_top_effect f p)) with (ticks p).
    destruct (ticks p) as [n| |]; simpl; try done.
    case_bool_decide; [|done].
    rewrite tick_with_top_effect.
    destruct (tick g fuel p (spend_mana st)) as [[st1 b]| |]; simpl; try done.
    destruct b; [apply IH|done].
Qed.

Lemma predict_with_top_effect g fuel f p st lg p' st' lg' :
  predict g fuel p st lg = Ok (p', st', lg') →
  predict g fuel (with_top_effect f p) st lg = Ok (with_top_effect f p', st', lg').
Proof.
  unfold predict. intros H.
  apply bind_Ok in H as ([st1 lg1] & Hrun & H). inversion H; subst.
  change (updateTicks g (with_top_effect f p)
            (Prediction.action (with_top_effect f p)) (State.stats st)).1
    with (with_top_effect f (updateTicks g p (Prediction.action p) (State.stats st)).1).
  rewrite predict_for_with_top_effect.
  change (Prediction._ticks (with_top_effect f ?q)) with (Prediction._ticks q).
  by rewrite Hrun.
Qed.

(** C8. In every repetition, the running total grows by the mana before the
    repetition minus the mana after the repetition's ticks; the top-level
    effect is applied to the resources afterwards.  Consequently the total
    does not depend on the top-level effect: with any other effect in its
    place (or none) the repetition yields the same total. *)
Theorem total_before_effect (g : Globals) (fuel : nat) (e e' : Entry) :
  update_rep g fuel e = Ok e' →
  ∃ p' st lg,
    predict g fuel (e_prediction e) (e_state e) (e_log e) = Ok (p', st, lg)
    ∧ e_total e'
      = e_total e + (rget (State.resources (e_state e)) "mana"
                     - rget (State.resources st) "mana")
    ∧ State.resources (e_state e')
      = apply_effect (Prediction.effect (e_prediction e)) (State.resources st)
    ∧ ∀ f, ∃ e2,
        update_rep g fuel (entry_with_top_effect f e) = Ok e2
        ∧ e_total e2 = e_total e'.
Proof.
  intros H.
  apply update_rep_Ok in H as (p' & st & lg & Hp & _ & Hst & Htot & _).
  exists p', st, lg. split; [done|]. split; [done|]. split.
  - rewrite Hst. simpl. apply predict_Ok in Hp as (-> & _). done.
  - intros f. apply (predict_with_top_effect g fuel f) in Hp.
    unfold update_rep, entry_with_top_effect. simpl. rewrite Hp. simpl.
    destruct f; eexists; (split; [reflexivity|]); simpl; by rewrite Htot.
Qed.

(** *** The validity flag *)

Lemma forallb_mana_ok_spent k : forallb mana_ok (repeat ManaSpent k) = true.
Proof. induction k; simpl; auto. Qed.

Lemma forallb_mana_ok_closing p mana :
  forallb mana_ok (closing_events p mana) = bool_decide (0 ≤ mana).
Proof.
  unfold closing_events. destruct (Prediction.effect p); simpl;
    by rewrite ?andb_true_r.
Qed.

Lemma update_rep_flag g fuel e e' :
  update_rep g fuel e = Ok e' →
  ∃ evs, e_log e' = e_log e ++ evs
         ∧ e_isValid e' = e_isValid e && forallb mana_ok evs.
Proof.
  intros H.
  apply update_rep_Ok in H as (p' & st & lg & Hp & _ & _ & _ & Hv & Hlog).
  apply predict_Ok in Hp as (_ & Hrun).
  apply predict_for_log in Hrun as (k & -> & _).
  exists (repeat ManaSpent k ++ closing_events p' (rget (State.resources st) "mana")).
  split; [by rewrite Hlog, <- app_assoc|].
  rewrite forallb_app, forallb_mana_ok_spent, forallb_mana_ok_closing. done.
Qed.

Lemma update_reps_flag g fuel loops e e' :
  update_reps g fuel loops e = Ok e' →
  ∃ evs, e_log e' = e_log e ++ evs
         ∧ e_isValid e' = e_isValid e && forallb mana_ok evs.
Proof.
  revert e. induction loops as [|loops IH]; intros e H; simpl in H.
  - inversion H; subst. exists []. by rewrite app_nil_r, andb_true_r.
  - apply bind_Ok in H as (e1 & H1 & H).
    apply update_rep_flag in H1 as (evs1 & Hl1 & Hv1).
    apply IH in H as (evs2 & Hl2 & Hv2).
    exists (evs1 ++ evs2). split.
    + by rewrite Hl2, Hl1, <- app_assoc.
    + by rewrite Hv2, Hv1, forallb_app, andb_assoc.
Qed.

(** C1 (as amended). The validity flag belongs to one entry: it starts as
    valid at every entry, whatever the flags of the entries before, and
    the entry's row is marked valid exactly when the mana was nonnegative
    at the validity check of every repetition of this entry (the check
    comes after the repetition's ticks and before its top-level effect).
    Within the entry the flag only degrades. *)
Theorem isValid_of_entry (g : Globals) (fuel : nat) (m m' : Machine)
    (listedAction : ListedAction) (prediction : Prediction.t) :
  predictions m !! la_name listedAction = Some prediction →
  update_entry g fuel m listedAction = Ok m' →
  ∃ evs,
    log m' = log m ++ evs
    ∧ rows m'
      = rows m ++ [{| row_resources := State.resources (state m');
                      row_isValid := forallb mana_ok evs |}].
Proof.
  intros Hp H. unfold update_entry in H. rewrite Hp in H.
  apply bind_Ok in H as (e & He & H). inversion H; subst; simpl.
  apply update_reps_flag in He as (evs & Hlog & Hv). simpl in *.
  exists evs. by rewrite Hlog, Hv.
Qed.

(** *** Entries without prediction *)







(** * Further properties of the engine *)

(** ** Order and arithmetic *)

Lemma Zc_pos (n : Z) : (0 < n)%Z → 0 < Zc n.
Proof.
  intros Hn. unfold Qclt, Zc.
  change (0 < Qred (inject_Z n))%Q. rewrite Qred_correct.
  unfold Qlt. simpl. lia.
Qed.

Lemma Zc_nonneg (n : Z) : (0 ≤ n)%Z → 0 ≤ Zc n.
Proof.
  intros Hn. unfold Qcle, Zc.
  change (0 <= Qred (inject_Z n))%Q. rewrite Qred_correct.
  unfold Qle. simpl. lia.
Qed.

Lemma Qcdiv_nonneg (x y : Qc) : 0 ≤ x → 0 < y → 0 ≤ x / y.
Proof.
  intros Hx Hy. unfold Qcdiv. apply Qcmult_nonneg_nonneg; [done|].
  apply Qclt_le_weak. by apply Qcinv_pos.
Qed.

Lemma Math_ceil_nonneg (x : Qc) : 0 ≤ x → (0 ≤ Math_ceil (x - epsilon))%Z.
Proof.
  intros Hx. unfold Math_ceil.
  destruct (Z_lt_le_dec (Qceiling (this (x - epsilon))) 0) as [Hneg|]; [|done].
  exfalso.
  pose proof (Qle_ceiling (this (x - epsilon))) as Hc.
  assert (Hz : (inject_Z (Qceiling (this (x - epsilon))) <= inject_Z (-1))%Q).
  { rewrite <- Zle_Qle. lia. }
  assert (Hd : (this (x - epsilon) == this x - (1 # 1000000))%Q).
  { unfold Qcminus, Qcplus, Qcopp, epsilon, Q2Qc. simpl.
    rewrite !Qred_correct. reflexivity. }
  unfold Qcle in Hx. change (this 0) with 0%Q in Hx.
  change (inject_Z (-1)) with (-1 # 1)%Q in Hz.
  generalize dependent (inject_Z (Qceiling (this (x - epsilon)))).
  generalize dependent (this (x - epsilon)).
  generalize dependent (this x).
  intros. lra.
Qed.

Lemma stat_sum_nonneg (f : string → Qc) names :
  (∀ i, 0 ≤ f i) → 0 ≤ stat_sum f names.
Proof.
  intros Hf. induction names as [|i names IH]; simpl; [done|].
  by apply Qcplus_nonneg_nonneg.
Qed.

(** ** [updateTicks] *)

(** X1. With a nonnegative mana cost, nonnegative weights and nonnegative
    levels, the tick count is never negative. *)
Theorem updateTicks_nonneg (g : Globals) (p : Prediction.t) (a : Action.t)
    (s : Stats) :
  0 ≤ Action.manaCost a →
  (∀ i w, Action.stats a !! i = Some w → 0 ≤ w) →
  (∀ e, 0 ≤ getLevelFromExp g e) →
  (0 ≤ (updateTicks g p a s).2)%Z.
Proof.
  intros Hm Hw Hlvl. unfold updateTicks. simpl. rewrite reduce_sum.
  apply Math_ceil_nonneg. apply Qcmult_nonneg_nonneg; [done|].
  rewrite Qcplus_0_l. apply stat_sum_nonneg. intros i.
  unfold stat_cost.
  destruct (Action.stats a !! i) as [w|] eqn:Ew; [|done].
  destruct (s !! i) as [e|]; [|done].
  apply Qcdiv_nonneg; [by eapply Hw|].
  apply Qcplus_pos_nonneg; [done|].
  apply Qcdiv_nonneg; [apply Hlvl|]. by apply Zc_pos.
Qed.

(** X2. The tick count depends on the stats table only through the stats
    the action weighs: two tables that agree on them give the same count. *)
Theorem updateTicks_agree (g : Globals) (p : Prediction.t) (a : Action.t)
    (s1 s2 : Stats) :
  (∀ i, is_Some (Action.stats a !! i) → s1 !! i = s2 !! i) →
  (updateTicks g p a s1).2 = (updateTicks g p a s2).2.
Proof.
  intros Hs. unfold updateTicks. simpl. rewrite !reduce_sum.
  do 4 f_equal. apply stat_sum_ext. intros i. unfold stat_cost.
  destruct (Action.stats a !! i) as [w|] eqn:Ew; [|done].
  by rewrite (Hs i ltac:(by rewrite Ew)).
Qed.

(** ** [exp] *)

Lemma exp_step_is_Some g p a s s' i j :
  exp_step g p a s i = Ok s' → is_Some (s' !! j) ↔ is_Some (s !! j).
Proof.
  unfold exp_step. intros H.
  destruct (Action.stats a !! i) as [w|]; [|by inversion H].
  destruct (s !! i) as [e|] eqn:Ei; [|by inversion H].
  apply bind_Ok in H as (n & _ & H). inversion H; subst.
  destruct (decide (i = j)) as [->|Hij].
  - rewrite lookup_insert_eq, Ei. split; eauto.
  - by rewrite lookup_insert_ne.
Qed.

Lemma exp_step_unweighed g p a s s' i j :
  exp_step g p a s i = Ok s' → Action.stats a !! j = None → s' !! j = s !! j.
Proof.
  intros H Hj. destruct (decide (i = j)) as [->|Hij].
  - unfold exp_step in H. rewrite Hj in H. by inversion H.
  - by eapply exp_step_other.
Qed.

Lemma exp_each_is_Some g p a names s s' j :
  exp_each g p a names s = Ok s' → is_Some (s' !! j) ↔ is_Some (s !! j).
Proof.
  revert s. induction names as [|i names IH]; intros s H; simpl in H.
  - by inversion H.
  - apply bind_Ok in H as (s1 & H1 & H).
    rewrite (IH _ H). by eapply exp_step_is_Some.
Qed.

Lemma exp_each_unweighed g p a names s s' j :
  exp_each g p a names s = Ok s' → Action.stats a !! j = None → s' !! j = s !! j.
Proof.
  revert s. induction names as [|i names IH]; intros s H Hj; simpl in H.
  - by inversion H.
  - apply bind_Ok in H as (s1 & H1 & H).
    rewrite (IH _ H Hj). by eapply exp_step_unweighed.
Qed.

(** X3. [exp] never creates or removes a stat: the stats table keeps its
    keys; and it leaves untouched every stat that the action does not weigh
    and every stat outside [statList]. *)
Theorem exp_keeps_keys (g : Globals) (p : Prediction.t) (a : Action.t)
    (s s' : Stats) :
  exp g p a s = Ok s' →
  (∀ i, is_Some (s' !! i) ↔ is_Some (s !! i))
  ∧ (∀ i, Action.stats a !! i = None → s' !! i = s !! i)
  ∧ (∀ i, i ∉ statList g → s' !! i = s !! i).
Proof.
  unfold exp. intros H. split; [|split]; intros i.
  - by eapply exp_each_is_Some.
  - by eapply exp_each_unweighed.
  - by eapply exp_each_other.
Qed.

Lemma gain_nonneg g p a w i :
  (0 < Prediction._ticks p)%Z →
  0 ≤ Action.expMult a → 0 ≤ Action.manaCost a → 0 ≤ getTotalBonusXP g i →
  0 ≤ w → 0 ≤ gain g p a w i.
Proof.
  intros Ht He Hm Hb Hw. unfold gain.
  apply Qcmult_nonneg_nonneg; [|done].
  apply Qcmult_nonneg_nonneg; [by apply Qcmult_nonneg_nonneg|].
  apply Qcdiv_nonneg; [done|]. by apply Zc_pos.
Qed.

Section Growth.
Variable g : Globals.
Variable p : Prediction.t.
Hypothesis Hexp : 0 ≤ Action.expMult (Prediction.action p).
Hypothesis Hcost : 0 ≤ Action.manaCost (Prediction.action p).
Hypothesis Hweights :
  ∀ i w, Action.stats (Prediction.action p) !! i = Some w → 0 ≤ w.
Hypothesis Hbonus : ∀ i, 0 ≤ getTotalBonusXP g i.

Lemma exp_step_grows s s' i j e :
  (0 < Prediction._ticks p)%Z →
  exp_step g p (Prediction.action p) s i = Ok s' → s !! j = Some e →
  ∃ e', s' !! j = Some e' ∧ e ≤ e'.
Proof.
  intros Ht H Hj. destruct (decide (i = j)) as [->|Hij].
  - destruct (Action.stats (Prediction.action p) !! j) as [w|] eqn:Ew.
    + rewrite (exp_step_gain g p _ s s' j w e Ew Hj H).
      eexists. split; [done|].
      rewrite <- (Qcplus_0_r e) at 1. apply Qcplus_le_mono_l.
      apply gain_nonneg; eauto.
    + unfold exp_step in H. rewrite Ew in H. inversion H; subst.
      exists e. split; [done|]. apply Qcle_refl.
  - rewrite (exp_step_other g p _ s s' i j H Hij).
    exists e. split; [done|]. apply Qcle_refl.
Qed.

Lemma exp_each_grows names s s' j e :
  (0 < Prediction._ticks p)%Z →
  exp_each g p (Prediction.action p) names s = Ok s' → s !! j = Some e →
  ∃ e', s' !! j = Some e' ∧ e ≤ e'.
Proof.
  intros Ht. revert s e. induction names as [|i names IH]; intros s e H Hj;
    simpl in H.
  - inversion H; subst. exists e. split; [done|]. apply Qcle_refl.
  - apply bind_Ok in H as (s1 & H1 & H).
    destruct (exp_step_grows _ _ _ _ _ Ht H1 Hj) as (e1 & He1 & Hle1).
    destruct (IH _ _ H He1) as (e' & He' & Hle').
    exists e'. split; [done|]. by eapply Qcle_trans.
Qed.

End Growth.

Lemma tick_stats g fuel p st st' b :
  tick g fuel p st = Ok (st', b) →
  exp g p (Prediction.action p) (State.stats st) = Ok (State.stats st').
Proof.
  unfold tick. intros H. apply bind_Ok in H as (s & Hs & H).
  destruct (Prediction.loop p) as [l|].
  - apply bind_Ok in H as (t & Ht & H). inversion H; subst.
    unfold tick_loop in Ht. simpl in Ht.
    destruct (State.progress st !! Prediction.name p); [|done].
    apply bind_Ok in Ht as ([? ?] & _ & Ht).
    apply bind_Ok in Ht as (? & _ & Ht).
    apply bind_Ok in Ht as ([[? ?] ?] & _ & Ht).
    inversion Ht; subst. done.
  - inversion H; subst. done.
Qed.

Lemma predict_for_grows g budget fuel p i st lg st' lg' j e :
  0 ≤ Action.expMult (Prediction.action p) →
  0 ≤ Action.manaCost (Prediction.action p) →
  (∀ i w, Action.stats (Prediction.action p) !! i = Some w → 0 ≤ w) →
  (∀ i, 0 ≤ getTotalBonusXP g i) →
  (0 ≤ i)%Z →
  predict_for g budget fuel p i st lg = Ok (st', lg') →
  State.stats st !! j = Some e →
  ∃ e', State.stats st' !! j = Some e' ∧ e ≤ e'.
Proof.
  intros He Hm Hw Hb. revert i st lg e.
  induction budget as [|budget IH]; intros i st lg e Hi H Hj; simpl in H;
    apply bind_Ok in H as (n & Hn & H); apply ticks_Ok in Hn as [<- _];
    case_bool_decide as Hlt; try done.
  - inversion H; subst. exists e. split; [done|]. apply Qcle_refl.
  - apply bind_Ok in H as ([st1 b] & Ht & H).
    apply tick_stats in Ht. unfold exp in Ht.
    destruct (exp_each_grows g p He Hm Hw Hb _ _ _ j e ltac:(lia) Ht Hj)
      as (e1 & He1 & Hle1).
    destruct b.
    + destruct (IH (i + 1)%Z st1 _ e1 ltac:(lia) H He1) as (e' & He' & Hle').
      exists e'. split; [done|]. by eapply Qcle_trans.
    + inversion H; subst. eauto.
  - inversion H; subst. exists e. split; [done|]. apply Qcle_refl.
Qed.

(** X4. Stat experience never decreases during a run: with a nonnegative
    experience multiplier, mana cost, weights and bonus multipliers, every
    stat of the table is, after [predict], at least what it was before. *)
Theorem experience_never_decreases (g : Globals) (fuel : nat) (p p' : Prediction.t)
    (st st' : State.t) (lg lg' : list Event) :
  0 ≤ Action.expMult (Prediction.action p) →
  0 ≤ Action.manaCost (Prediction.action p) →
  (∀ i w, Action.stats (Prediction.action p) !! i = Some w → 0 ≤ w) →
  (∀ i, 0 ≤ getTotalBonusXP g i) →
  predict g fuel p st lg = Ok (p', st', lg') →
  ∀ j e, State.stats st !! j = Some e →
    ∃ e', State.stats st' !! j = Some e' ∧ e ≤ e'.
Proof.
  intros He Hm Hw Hb H j e Hj.
  apply predict_Ok in H as (-> & H).
  exact (predict_for_grows g _ fuel
           (updateTicks g p (Prediction.action p) (State.stats st)).1
           0%Z st lg st' lg' j e He Hm Hw Hb ltac:(done) H Hj).
Qed.

(** ** Runs *)

Lemma predict_zero g fuel p st lg :
  (updateTicks g p (Prediction.action p) (State.stats st)).2 = 0%Z →
  predict g fuel p st lg = TypeError.
Proof.
  intros E. unfold predict.
  destruct (updateTicks_fields g p (Prediction.action p) (State.stats st))
    as (_ & _ & _ & _ & Ht).
  rewrite E in Ht. rewrite Ht.
  change (Z.to_nat 0) with O. unfold predict_for.
  by rewrite (ticks_zero _ Ht).
Qed.

(** X5. An entry whose action needs 0 ticks makes the whole pass raise: when
    the tick count computed for the first repetition is 0 and the entry is
    repeated at least once, the callback raises, and so does the pass over
    any list that starts with the entry. *)
Theorem no_ticks_entry_raises (g : Globals) (fuel : nat) (m : Machine)
    (listedAction : ListedAction) (prediction : Prediction.t)
    (actions : list ListedAction) :
  predictions m !! la_name listedAction = Some prediction →
  (1 ≤ la_loops listedAction)%Z →
  (updateTicks g prediction (Prediction.action prediction)
     (State.stats (state m))).2 = 0%Z →
  update_entry g fuel m listedAction = TypeError
  ∧ update_each g fuel m (listedAction :: actions) = TypeError.
Proof.
  intros Hp Hloops Hz.
  assert (H : update_entry g fuel m listedAction = TypeError).
  { unfold update_entry. rewrite Hp.
    destruct (Z.to_nat (la_loops listedAction)) as [|n] eqn:En; [lia|].
    cbn [update_reps]. unfold update_rep. cbn [e_prediction e_state e_log].
    rewrite predict_zero; [done|].
    unfold ensure_progress.
    by destruct (Prediction.loop prediction),
         (State.progress (state m) !! Prediction.name prediction). }
  split; [done|]. simpl. by rewrite H.
Qed.

Lemma rget_spend_mana st :
  rget (State.resources (spend_mana st)) "mana"
  = rget (State.resources st) "mana" - 1.
Proof. unfold spend_mana, rget. simpl. by rewrite lookup_insert_eq. Qed.

Lemma lookup_spend_mana st k :
  k ≠ "mana" →
  State.resources (spend_mana st) !! k = State.resources st !! k.
Proof. intros Hk. unfold spend_mana. simpl. by rewrite lookup_insert_ne. Qed.

Lemma predict_for_plain_state g budget fuel p i st lg st' lg' :
  Prediction.loop p = None →
  predict_for g budget fuel p i st lg = Ok (st', lg') →
  rget (State.resources st') "mana"
  = rget (State.resources st) "mana" - Zc (Z.max 0 (Prediction._ticks p - i))
  ∧ (∀ k, k ≠ "mana" → State.resources st' !! k = State.resources st !! k)
  ∧ State.progress st' = State.progress st
  ∧ ((Prediction._ticks p - i ≤ 0)%Z → st' = st).
Proof.
  intros Hplain. revert i st lg.
  induction budget as [|budget IH]; intros i st lg H; simpl in H;
    apply bind_Ok in H as (n & Hn & H); apply ticks_Ok in Hn as [<- _];
    case_bool_decide as Hlt; try done.
  - inversion H; subst. rewrite Z.max_l by lia. rewrite Zc_0.
    repeat split; try done. unfold Qcminus. ring.
  - apply bind_Ok in H as ([st1 b] & Ht & H).
    apply (tick_plain g fuel p Hplain) in Ht as (-> & _ & Hr & Hpr).
    apply IH in H as (Hm & Hk & Hprog & _).
    repeat split.
    + rewrite Hm, Hr, rget_spend_mana.
      replace (Z.max 0 (Prediction._ticks p - i))
        with (Z.max 0 (Prediction._ticks p - (i + 1)) + 1)%Z by lia.
      rewrite Zc_add, Zc_1. ring.
    + intros k Hkm. rewrite (Hk k Hkm), Hr. by apply lookup_spend_mana.
    + by rewrite Hprog, Hpr.
    + lia.
  - inversion H; subst. rewrite Z.max_l by lia. rewrite Zc_0.
    repeat split; try done. unfold Qcminus. ring.
Qed.

(** X6. A run of an action without loop descriptor whose tick count T is not
    0 completes: it decrements the mana max(0, T) times, lowers
    [resources.mana] by that much, leaves every other resource and the
    progress table as they were, and writes T to the cache; for a negative T
    the state is unchanged. *)
Theorem plain_run_outcome (g : Globals) (fuel : nat) (p : Prediction.t)
    (st : State.t) (lg : list Event) :
  Prediction.loop p = None →
  (updateTicks g p (Prediction.action p) (State.stats st)).2 ≠ 0%Z →
  let T := (updateTicks g p (Prediction.action p) (State.stats st)).2 in
  ∃ st',
    predict g fuel p st lg
    = Ok (Prediction.set_ticks T p, st', lg ++ repeat ManaSpent (Z.to_nat T))
    ∧ rget (State.resources st') "mana"
      = rget (State.resources st) "mana" - Zc (Z.max 0 T)
    ∧ (∀ k, k ≠ "mana" → State.resources st' !! k = State.resources st !! k)
    ∧ State.progress st' = State.progress st
    ∧ ((T < 0)%Z → st' = st).
Proof.
  intros Hplain Hnz T.
  destruct (updateTicks_fields g p (Prediction.action p) (State.stats st))
    as (_ & _ & _ & Hl & Ht).
  set (p1 := (updateTicks g p (Prediction.action p) (State.stats st)).1) in *.
  fold T in Ht. rewrite Hplain in Hl.
  destruct (predict_for_plain_total g fuel p1 Hl (Z.to_nat T) 0%Z st lg
              ltac:(by rewrite Ht) ltac:(lia)) as (st' & Hrun).
  exists st'.
  destruct (predict_for_plain_state g _ fuel p1 _ _ _ _ _ Hl Hrun)
    as (Hm & Hk & Hprog & Hsame).
  rewrite Ht, Z.sub_0_r in *.
  split; [|repeat split; try done; intros; apply Hsame; lia].
  unfold predict. fold p1. rewrite Ht, Hrun. done.
Qed.

(** X7. For an action without loop descriptor, a repetition adds exactly
    max(0, T) to the running total, T being the tick count computed at its
    start. *)
Theorem plain_repetition_total (g : Globals) (fuel : nat) (e e' : Entry) :
  Prediction.loop (e_prediction e) = None →
  update_rep g fuel e = Ok e' →
  e_total e'
  = e_total e
    + Zc (Z.max 0 (updateTicks g (e_prediction e)
                     (Prediction.action (e_prediction e))
                     (State.stats (e_state e))).2).
Proof.
  intros Hplain H.
  apply update_rep_Ok in H as (p' & st & lg & Hp & _ & _ & Htot & _).
  apply predict_Ok in Hp as (Hp' & Hrun).
  destruct (updateTicks_fields g (e_prediction e)
              (Prediction.action (e_prediction e)) (State.stats (e_state e)))
    as (_ & _ & _ & Hl & Ht).
  rewrite <- Hp' in Hl, Ht. rewrite Hplain in Hl.
  apply (predict_for_plain_state g _ fuel p' _ _ _ _ _ Hl) in Hrun as (Hm & _).
  rewrite Htot, Hm, Ht, Z.sub_0_r. ring.
Qed.

(** ** Ticks that make no progress *)

Lemma segment_after_stays fuel l a mx progress segment pr r :
  progress < Loop.cost l pr a segment →
  segment_after fuel l a mx progress segment pr r = Ok (segment, pr, r).
Proof.
  intros Hlt.
  assert (Hc : bool_decide (Loop.cost l pr a segment ≤ progress) = false).
  { apply bool_decide_eq_false_2. by apply Qclt_nge. }
  destruct fuel; simpl; by rewrite Hc.
Qed.

Lemma tick_without_progress g fuel p l st st' b pr :
  Prediction.loop p = Some l →
  State.progress st !! Prediction.name p = Some pr →
  (∀ s segment,
     Loop.tick l pr (Prediction.action p) s (State.resources st) segment = 0) →
  tick g fuel p st = Ok (st', b) →
  b = false
  ∧ State.resources st' = State.resources st
  ∧ State.progress st' = State.progress st.
Proof.
  intros Hl Hpr Hzero H.
  apply (tick_Ok_loop g fuel p l) in H as (s & t & Hs & Ht & -> & ->); [|done].
  destruct (tick_loop_Ok fuel p l
              (State.mk s (State.resources st) (State.progress st)) t pr Hpr Ht)
    as (segment0 & remainder & n & segment & pr' & r' & Hb & _ & Ha & Hadd & Hst & _).
  simpl in *. rewrite Hzero in Hadd.
  assert (Hadd0 : t_additionalProgress t = 0) by (rewrite Hadd; ring).
  rewrite Hadd0 in Ha.
  apply segment_before_remainder in Hb as [Hrem _].
  replace (Progression.mk (Progression.progress pr + 0)
             (Progression.completed pr) (Progression.total pr)) with pr in Ha
    by (destruct pr; simpl; f_equal; ring).
  rewrite Qcplus_0_r in Ha.
  rewrite (segment_after_stays _ _ _ _ _ _ _ _ Hrem) in Ha.
  inversion Ha; subst. rewrite Hst. simpl.
  split; [|split; [done|by apply insert_id]].
  unfold continues. rewrite Hadd0.
  by rewrite (bool_decide_eq_false_2 (0 ≠ 0)) by (intros Hne; by apply Hne).
Qed.

(** X8. A tick of a loop action whose tick-progress function yields 0 makes
    no progress: it returns "stop" and leaves the resources and the whole
    progress table unchanged (only the experience of the tick is gained). *)
Theorem idle_tick_stops (g : Globals) (fuel : nat) (p : Prediction.t) (l : Loop.t)
    (st st' : State.t) (b : bool) (pr : Progression.t) :
  Prediction.loop p = Some l →
  State.progress st !! Prediction.name p = Some pr →
  (∀ s segment,
     Loop.tick l pr (Prediction.action p) s (State.resources st) segment = 0) →
  tick g fuel p st = Ok (st', b) →
  b = false
  ∧ State.resources st' = State.resources st
  ∧ State.progress st' = State.progress st.
Proof. apply tick_without_progress. Qed.

(** X9. The dungeon loops stop at an exhausted dungeon: when the floor given
    by the completed segments is not in the dungeon, a tick of Small Dungeon
    or Large Dungeon returns "stop" and changes neither the resources nor
    the progress table. *)
Theorem exhausted_dungeon_stops (g : Globals) (fuel : nat) (p : Prediction.t)
    (st st' : State.t) (b : bool) (pr : Progression.t) :
  Prediction.loop p = Some (smallDungeon g)
  ∨ Prediction.loop p = Some (largeDungeon g) →
  State.progress st !! Prediction.name p = Some pr →
  dungeon_floor g pr (Prediction.action p) = None →
  tick g fuel p st = Ok (st', b) →
  b = false
  ∧ State.resources st' = State.resources st
  ∧ State.progress st' = State.progress st.
Proof.
  intros [Hl|Hl] Hpr Hfloor H;
    (eapply tick_without_progress; [exact Hl|exact Hpr| |exact H]);
    intros s segment; simpl; by rewrite Hfloor.
Qed.

(** ** The fresh state of a pass *)

Lemma add_names_spec (names keys : list string) :
  let keys' :=
    fold_left (λ keys name, if bool_decide (name ∈ keys) then keys else keys ++ [name])
      names keys in
  (NoDup keys → NoDup keys') ∧ ∀ x, x ∈ keys' ↔ x ∈ keys ∨ x ∈ names.
Proof.
  revert keys. induction names as [|name names IH]; intros keys; simpl.
  - split; [done|]. intros x. rewrite elem_of_nil. tauto.
  - case_bool_decide as Hin.
    + destruct (IH keys) as [Hnd Hx]. split; [done|].
      intros x. rewrite Hx, elem_of_cons.
      split; [tauto|]. intros [?|[->|?]]; auto.
    + destruct (IH (keys ++ [name])) as [Hnd Hx]. split.
      * intros Hk. apply Hnd. apply list.NoDup_app. repeat split; try done.
        -- intros x Hxk ->%list_elem_of_singleton. done.
        -- apply NoDup_singleton.
      * intros x. rewrite Hx, elem_of_app, list_elem_of_singleton, elem_of_cons.
        tauto.
Qed.

(** X10. [affected] is a list of distinct names, and it holds exactly the
    names that some listed action with a prediction declares as affected;
    listed actions without prediction contribute nothing. *)
Theorem affected_names_spec (preds : gmap string Prediction.t)
    (actions : list ListedAction) :
  NoDup (affected_names preds actions)
  ∧ ∀ x, x ∈ affected_names preds actions
         ↔ ∃ listedAction prediction,
             listedAction ∈ actions
             ∧ preds !! la_name listedAction = Some prediction
             ∧ x ∈ Prediction.affected prediction.
Proof.
  unfold affected_names.
  assert (H : ∀ keys,
    let keys' :=
      fold_left
        (λ keys x,
           fold_left (λ keys name, if bool_decide (name ∈ keys) then keys else keys ++ [name])
             (match preds !! la_name x with
              | Some p => Prediction.affected p
              | None => []
              end) keys)
        actions keys in
    (NoDup keys → NoDup keys')
    ∧ ∀ x, x ∈ keys'
           ↔ x ∈ keys
             ∨ ∃ listedAction prediction,
                 listedAction ∈ actions
                 ∧ preds !! la_name listedAction = Some prediction
                 ∧ x ∈ Prediction.affected prediction).
  { induction actions as [|la actions IH]; intros keys; simpl.
    - split; [done|]. intros x. split; [auto|].
      intros [?|(? & ? & Hin & _)]; [done|]. by apply elem_of_nil in Hin.
    - destruct (add_names_spec
                  (match preds !! la_name la with
                   | Some p => Prediction.affected p
                   | None => []
                   end) keys) as [Hnd1 Hx1].
      destruct (IH (fold_left
                      (λ keys name, if bool_decide (name ∈ keys) then keys else keys ++ [name])
                      (match preds !! la_name la with
                       | Some p => Prediction.affected p
                       | None => []
                       end) keys)) as [Hnd2 Hx2].
      split; [auto|]. intros x. rewrite Hx2, Hx1. split.
      + intros [[?|Hin]|(la' & p & Hin & Hp & Hx)]; auto.
        * right. destruct (preds !! la_name la) as [p|] eqn:Hp.
          -- exists la, p. split; [apply elem_of_cons; auto|done].
          -- by apply elem_of_nil in Hin.
        * right. exists la', p. split; [apply elem_of_cons; auto|done].
      + intros [?|(la' & p & Hin & Hp & Hx)]; auto.
        apply elem_of_cons in Hin as [->|Hin].
        * left. right. by rewrite Hp.
        * right. eauto. }
  destruct (H []) as [Hnd Hx]. split; [apply Hnd, NoDup_nil_2|].
  intros x. rewrite Hx. split; [|auto].
  intros [Hin|?]; [by apply elem_of_nil in Hin|done].
Qed.

Lemma init_resource_lookup r x k :
  init_resource r x !! k
  = if bool_decide (k = x)
    then match r !! x with
         | Some v => Some v
         | None => Some 0
         end
    else r !! k.
Proof.
  unfold init_resource. case_bool_decide as Hk.
  - subst k. destruct (r !! x) as [v|] eqn:Hv.
    + case_bool_decide as Hz; [|done]. subst v. by rewrite lookup_insert_eq.
    + by rewrite lookup_insert_eq.
  - destruct (r !! x) as [v|]; [case_bool_decide|]; by rewrite ?lookup_insert_ne.
Qed.

Lemma init_resources_lookup affected r k :
  fold_left init_resource affected r !! k
  = match r !! k with
    | Some v => Some v
    | None => if bool_decide (k ∈ affected) then Some 0 else None
    end.
Proof.
  revert r. induction affected as [|x affected IH]; intros r; simpl.
  - by destruct (r !! k).
  - rewrite IH, init_resource_lookup.
    destruct (decide (k = x)) as [->|Hk].
    + rewrite bool_decide_eq_true_2 by done.
      destruct (r !! x); [done|].
      rewrite (bool_decide_eq_true_2 (x ∈ x :: affected)); [done|].
      apply elem_of_cons. auto.
    + rewrite (bool_decide_eq_false_2 (k = x)) by done.
      destruct (r !! k); [done|].
      destruct (decide (k ∈ affected)) as [Hin|Hin].
      * rewrite !bool_decide_eq_true_2; [done| |done].
        apply elem_of_cons. auto.
      * rewrite !bool_decide_eq_false_2; [done| |done].
        intros [?|?]%elem_of_cons; done.
Qed.

Lemma init_stats_lookup (names : list string) (s : Stats) i :
  fold_left (λ stats name, <[name := 0]> stats) names s !! i
  = if bool_decide (i ∈ names) then Some 0 else s !! i.
Proof.
  revert s. induction names as [|name names IH]; intros s; simpl; [done|].
  rewrite IH. case_bool_decide as H1; case_bool_decide as H2; try done.
  - exfalso. apply H2, elem_of_cons. auto.
  - apply elem_of_cons in H2 as [->|?]; [|done]. by rewrite lookup_insert_eq.
  - rewrite lookup_insert_ne; [done|]. intros ->. apply H2, elem_of_cons. auto.
Qed.

(** X11. The fresh state of a pass: 250 mana; every other affected resource
    at 0 and no further resource; every stat of [statList] at 0 and no
    further stat; no progression record. *)
Theorem initial_state_spec (g : Globals) (affected : list string) :
  let st := initial_state g affected in
  State.resources st !! "mana" = Some (Zc 250)
  ∧ (∀ k, k ≠ "mana" →
      State.resources st !! k = if bool_decide (k ∈ affected) then Some 0 else None)
  ∧ (∀ i, State.stats st !! i = if bool_decide (i ∈ statList g) then Some 0 else None)
  ∧ State.progress st = ∅.
Proof.
  simpl. split; [|split; [|split]].
  - rewrite init_resources_lookup. by rewrite lookup_singleton_eq.
  - intros k Hk. rewrite init_resources_lookup.
    rewrite lookup_singleton_ne; done.
  - intros i. by rewrite init_stats_lookup.
  - done.
Qed.

(** ** Invariants of a pass *)

(** The same prediction up to the cache [_ticks]. *)
Lemma set_ticks_self p : Prediction.set_ticks (Prediction._ticks p) p = p.
Proof. by destruct p. Qed.

Lemma update_rep_prediction g fuel e e' :
  update_rep g fuel e = Ok e' →
  e_prediction e'
  = Prediction.set_ticks (Prediction._ticks (e_prediction e')) (e_prediction e).
Proof.
  intros H.
  apply update_rep_Ok in H as (p' & st & lg & Hp & -> & _).
  apply predict_Ok in Hp as (-> & _). done.
Qed.

Lemma update_reps_prediction g fuel loops e e' :
  update_reps g fuel loops e = Ok e' →
  e_prediction e'
  = Prediction.set_ticks (Prediction._ticks (e_prediction e')) (e_prediction e).
Proof.
  revert e. induction loops as [|loops IH]; intros e H; simpl in H.
  - inversion H; subst. by rewrite set_ticks_self.
  - apply bind_Ok in H as (e1 & H1 & H).
    apply IH in H. apply update_rep_prediction in H1.
    rewrite H, H1. done.
Qed.

Lemma update_entry_caches g fuel m m' listedAction k :
  update_entry g fuel m listedAction = Ok m' →
  match predictions m' !! k with
  | Some p' =>
      ∃ p, predictions m !! k = Some p
           ∧ p' = Prediction.set_ticks (Prediction._ticks p') p
  | None => predictions m !! k = None
  end.
Proof.
  unfold update_entry. intros H.
  destruct (predictions m !! la_name listedAction) as [p|] eqn:Hp.
  - apply bind_Ok in H as (e & He & H). inversion H; subst; simpl.
    apply update_reps_prediction in He. simpl in He.
    destruct (decide (la_name listedAction = k)) as [<-|Hk].
    + rewrite lookup_insert_eq. eauto.
    + rewrite lookup_insert_ne by done.
      destruct (predictions m !! k) as [p0|]; [|done].
      exists p0. by rewrite set_ticks_self.
  - inversion H; subst.
    destruct (predictions m' !! k) as [p0|]; [|done].
    exists p0. by rewrite set_ticks_self.
Qed.

Lemma update_each_caches g fuel actions m m' k :
  update_each g fuel m actions = Ok m' →
  match predictions m' !! k with
  | Some p' =>
      ∃ p, predictions m !! k = Some p
           ∧ p' = Prediction.set_ticks (Prediction._ticks p') p
  | None => predictions m !! k = None
  end.
Proof.
  revert m. induction actions as [|la actions IH]; intros m H; simpl in H.
  - inversion H; subst.
    destruct (predictions m' !! k) as [p0|]; [|done].
    exists p0. by rewrite set_ticks_self.
  - apply bind_Ok in H as (m1 & H1 & H).
    apply IH in H. apply (update_entry_caches _ _ _ _ _ k) in H1.
    destruct (predictions m' !! k) as [p'|].
    + destruct H as (p1 & Hp1 & ->). rewrite Hp1 in H1.
      destruct H1 as (p & Hp & ->). exists p. done.
    + by rewrite H in H1.
Qed.

(** X12. A pass changes the prediction collection only in the caches
    [_ticks]: it has the same names afterwards, and every prediction is the
    one it was before, up to its cached tick count. *)
Theorem update_touches_caches_only (g : Globals) (fuel : nat)
    (preds : gmap string Prediction.t) (actions : list ListedAction) (m : Machine) :
  update g fuel preds actions = Ok m →
  ∀ k,
    (predictions m !! k = None ↔ preds !! k = None)
    ∧ ∀ p', predictions m !! k = Some p' →
        ∃ p, preds !! k = Some p
             ∧ p' = Prediction.set_ticks (Prediction._ticks p') p.
Proof.
  intros H k. unfold update in H.
  apply (update_each_caches _ _ _ _ _ k) in H. simpl in H.
  destruct (predictions m !! k) as [p'|].
  - destruct H as (p & Hp & Hp'). split.
    + rewrite Hp. split; done.
    + intros ? [= <-]. eauto.
  - split; [done|]. done.
Qed.





(** X14. An entry with a repeat count of 0 or less runs nothing: the state
    is unchanged except that the progression record of a loop action is
    created if missing, the total and the caches are unchanged, and the row
    is marked valid whatever the mana. *)
Theorem entry_without_repetition (g : Globals) (fuel : nat) (m : Machine)
    (listedAction : ListedAction) (prediction : Prediction.t) :
  predictions m !! la_name listedAction = Some prediction →
  (la_loops listedAction ≤ 0)%Z →
  update_entry g fuel m listedAction
  = Ok {| predictions := predictions m;
          state := ensure_progress g prediction (state m);
          total := total m;
          rows := rows m ++ [{| row_resources := State.resources (state m);
                                row_isValid := true |}];
          log := log m |}.
Proof.
  intros Hp Hloops. unfold update_entry. rewrite Hp.
  replace (Z.to_nat (la_loops listedAction)) with O by lia. simpl.
  rewrite insert_id by done. do 3 f_equal.
  unfold ensure_progress.
  by destruct (Prediction.loop prediction),
       (State.progress (state m) !! Prediction.name prediction).
Qed.

(** ** The progress table during a pass *)

Lemma tick_progress g fuel p st st' b :
  tick g fuel p st = Ok (st', b) →
  (∀ k, k ≠ Prediction.name p → State.progress st' !! k = State.progress st !! k)
  ∧ (is_Some (State.progress st !! Prediction.name p) →
     is_Some (State.progress st' !! Prediction.name p))
  ∧ (Prediction.loop p = None → State.progress st' = State.progress st).
Proof.
  intros H. destruct (Prediction.loop p) as [l|] eqn:Hl.
  - destruct (tick_Ok_loop g fuel p l st st' b Hl H) as (s & t & Hs & Ht & Hst & Hb).
    destruct (State.progress st !! Prediction.name p) as [pr|] eqn:Hpr;
      [|unfold tick_loop in Ht; simpl in Ht; by rewrite Hpr in Ht].
    destruct (tick_loop_Ok fuel p l
                (State.mk s (State.resources st) (State.progress st)) t pr Hpr Ht)
      as (? & ? & ? & ? & pr' & r' & _ & _ & _ & _ & Hts & _).
    rewrite Hst, Hts. simpl. repeat split; try done.
    + intros k Hk. by rewrite lookup_insert_ne.
    + intros _. rewrite lookup_insert_eq. eauto.
  - apply (tick_plain g fuel p Hl) in H as (_ & _ & _ & ->). done.
Qed.

Lemma predict_for_progress g budget fuel p i st lg st' lg' :
  predict_for g budget fuel p i st lg = Ok (st', lg') →
  (∀ k, k ≠ Prediction.name p → State.progress st' !! k = State.progress st !! k)
  ∧ (is_Some (State.progress st !! Prediction.name p) →
     is_Some (State.progress st' !! Prediction.name p))
  ∧ (Prediction.loop p = None → State.progress st' = State.progress st).
Proof.
  revert i st lg. induction budget as [|budget IH]; intros i st lg H; simpl in H;
    apply bind_Ok in H as (n & Hn & H); case_bool_decide as Hlt; try done.
  - by inversion H; subst.
  - apply bind_Ok in H as ([st1 b] & Ht & H).
    apply tick_progress in Ht as (Hk1 & Hs1 & Hp1). simpl in *.
    assert (Hgoal :
      (∀ k, k ≠ Prediction.name p → State.progress st1 !! k = State.progress st !! k)
      ∧ (is_Some (State.progress st !! Prediction.name p) →
         is_Some (State.progress st1 !! Prediction.name p))
      ∧ (Prediction.loop p = None → State.progress st1 = State.progress st))
      by done.
    destruct b; [|by inversion H; subst].
    apply IH in H as (Hk2 & Hs2 & Hp2). repeat split.
    + intros k Hk. by rewrite Hk2, Hk1.
    + auto.
    + intros Hl. by rewrite Hp2, Hp1.
  - by inversion H; subst.
Qed.

Lemma update_rep_progress g fuel e e' :
  update_rep g fuel e = Ok e' →
  let name := Prediction.name (e_prediction e) in
  Prediction.name (e_prediction e') = name
  ∧ Prediction.loop (e_prediction e') = Prediction.loop (e_prediction e)
  ∧ (∀ k, k ≠ name →
      State.progress (e_state e') !! k = State.progress (e_state e) !! k)
  ∧ (is_Some (State.progress (e_state e) !! name) →
     is_Some (State.progress (e_state e') !! name))
  ∧ (Prediction.loop (e_prediction e) = None →
     State.progress (e_state e') = State.progress (e_state e)).
Proof.
  intros H name.
  apply update_rep_Ok in H as (p' & st & lg & Hp & -> & -> & _).
  apply predict_Ok in Hp as (-> & Hrun).
  apply predict_for_progress in Hrun. simpl in *. done.
Qed.

Lemma update_reps_progress g fuel loops e e' :
  update_reps g fuel loops e = Ok e' →
  let name := Prediction.name (e_prediction e) in
  Prediction.name (e_prediction e') = name
  ∧ Prediction.loop (e_prediction e') = Prediction.loop (e_prediction e)
  ∧ (∀ k, k ≠ name →
      State.progress (e_state e') !! k = State.progress (e_state e) !! k)
  ∧ (is_Some (State.progress (e_state e) !! name) →
     is_Some (State.progress (e_state e') !! name))
  ∧ (Prediction.loop (e_prediction e) = None →
     State.progress (e_state e') = State.progress (e_state e)).
Proof.
  revert e. induction loops as [|loops IH]; intros e H; simpl in H.
  - by inversion H; subst.
  - apply bind_Ok in H as (e1 & H1 & H).
    apply update_rep_progress in H1 as (Hn1 & Hl1 & Hk1 & Hs1 & Hp1).
    apply IH in H as (Hn2 & Hl2 & Hk2 & Hs2 & Hp2).
    rewrite Hn1 in *. rewrite Hl1 in *. simpl. repeat split.
    + done.
    + done.
    + intros k Hk. by rewrite Hk2, Hk1.
    + auto.
    + intros Hl. by rewrite Hp2, Hp1.
Qed.

(** X15. An entry touches the progress table only at its own action: the
    progression records of all other names are as before; for a loop action
    the record of the action exists afterwards; for an action without loop
    descriptor the progress table is unchanged altogether. *)
Theorem entry_progress_frame (g : Globals) (fuel : nat) (m m' : Machine)
    (listedAction : ListedAction) (prediction : Prediction.t) :
  predictions m !! la_name listedAction = Some prediction →
  update_entry g fuel m listedAction = Ok m' →
  (∀ k, k ≠ Prediction.name prediction →
     State.progress (state m') !! k = State.progress (state m) !! k)
  ∧ (Prediction.loop prediction ≠ None →
     is_Some (State.progress (state m') !! Prediction.name prediction))
  ∧ (Prediction.loop prediction = None →
     State.progress (state m') = State.progress (state m)).
Proof.
  intros Hp H. unfold update_entry in H. rewrite Hp in H.
  apply bind_Ok in H as (e & He & H). inversion H; subst; simpl.
  apply update_reps_progress in He as (_ & _ & Hk & Hs & Hplain). simpl in *.
  unfold ensure_progress in *.
  destruct (Prediction.loop prediction) as [l|] eqn:Hl;
    destruct (State.progress (state m) !! Prediction.name prediction) as [pr|] eqn:Hpr;
    simpl in *; repeat split; try done.
  all: try (intros _; apply Hs; rewrite ?lookup_insert_eq; by eexists).
  all: try (by apply Hplain).
  intros k Hkn. rewrite (Hk k Hkn). by rewrite lookup_insert_ne.
Qed.

(** ** The stats table during a pass *)

Lemma predict_for_stat_names g budget fuel p i st lg st' lg' j :
  predict_for g budget fuel p i st lg = Ok (st', lg') →
  is_Some (State.stats st' !! j) ↔ is_Some (State.stats st !! j).
Proof.
  revert i st lg. induction budget as [|budget IH]; intros i st lg H; simpl in H;
    apply bind_Ok in H as (n & Hn & H); case_bool_decide as Hlt; try done.
  - by inversion H; subst.
  - apply bind_Ok in H as ([st1 b] & Ht & H).
    apply tick_stats in Ht. unfold exp in Ht.
    apply (exp_each_is_Some _ _ _ _ _ _ j) in Ht. simpl in Ht.
    destruct b; [|by inversion H; subst].
    apply IH in H. by rewrite H.
  - by inversion H; subst.
Qed.

Lemma update_rep_stat_names g fuel e e' j :
  update_rep g fuel e = Ok e' →
  is_Some (State.stats (e_state e') !! j) ↔ is_Some (State.stats (e_state e) !! j).
Proof.
  intros H.
  apply update_rep_Ok in H as (p' & st & lg & Hp & _ & -> & _).
  apply predict_Ok in Hp as (_ & Hrun).
  by apply (predict_for_stat_names _ _ _ _ _ _ _ _ _ j) in Hrun.
Qed.

Lemma update_reps_stat_names g fuel loops e e' j :
  update_reps g fuel loops e = Ok e' →
  is_Some (State.stats (e_state e') !! j) ↔ is_Some (State.stats (e_state e) !! j).
Proof.
  revert e. induction loops as [|loops IH]; intros e H; simpl in H.
  - by inversion H; subst.
  - apply bind_Ok in H as (e1 & H1 & H).
    rewrite (IH _ H). by eapply update_rep_stat_names.
Qed.

Lemma update_entry_stat_names g fuel m m' listedAction j :
  update_entry g fuel m listedAction = Ok m' →
  is_Some (State.stats (state m') !! j) ↔ is_Some (State.stats (state m) !! j).
Proof.
  unfold update_entry. intros H.
  destruct (predictions m !! la_name listedAction) as [p|]; [|by inversion H; subst].
  apply bind_Ok in H as (e & He & H). inversion H; subst; simpl.
  apply (update_reps_stat_names _ _ _ _ _ j) in He. simpl in He.
  rewrite He. unfold ensure_progress.
  by destruct (Prediction.loop p), (State.progress (state m) !! Prediction.name p).
Qed.

Lemma update_each_stat_names g fuel actions m m' j :
  update_each g fuel m actions = Ok m' →
  is_Some (State.stats (state m') !! j) ↔ is_Some (State.stats (state m) !! j).
Proof.
  revert m. induction actions as [|la actions IH]; intros m H; simpl in H.
  - by inversion H; subst.
  - apply bind_Ok in H as (m1 & H1 & H).
    rewrite (IH _ H). by eapply update_entry_stat_names.
Qed.

(** X16. Throughout a pass the stats table has exactly the names of
    [statList]: no stat is ever added or removed. *)
Theorem update_keeps_stat_names (g : Globals) (fuel : nat)
    (preds : gmap string Prediction.t) (actions : list ListedAction) (m : Machine) :
  update g fuel preds actions = Ok m →
  ∀ i, is_Some (State.stats (state m) !! i) ↔ i ∈ statList g.
Proof.
  intros H i. unfold update in H.
  apply (update_each_stat_names _ _ _ _ _ i) in H. rewrite H. simpl.
  rewrite init_stats_lookup. case_bool_decide as Hi.
  - split; eauto.
  - rewrite lookup_empty. split; [by intros [? ?]|done].
Qed.

(** ** The catalogue *)

Lemma fold_insert_lookup {A B} (f : string → A → B)
    (l : list (string * A)) (m : gmap string B) (name : string) :
  (name ∉ l.*1 →
   fold_left (λ preds np, <[np.1 := f np.1 np.2]> preds) l m !! name = m !! name)
  ∧ (NoDup l.*1 → ∀ a, (name, a) ∈ l →
     fold_left (λ preds np, <[np.1 := f np.1 np.2]> preds) l m !! name
     = Some (f name a)).
Proof.
  revert m. induction l as [|[n a0] l IH]; intros m; simpl.
  - split; [done|]. intros _ a Hin. by apply elem_of_nil in Hin.
  - destruct (IH (<[n := f n a0]> m)) as [IH1 IH2]. split.
    + intros Hn. apply not_elem_of_cons in Hn as [Hne Hn].
      rewrite (IH1 Hn). by rewrite lookup_insert_ne.
    + intros Hnd a Hin. apply list.NoDup_cons in Hnd as [Hfresh Hnd].
      apply elem_of_cons in Hin as [[= -> ->]|Hin].
      * rewrite (IH1 Hfresh). by rewrite lookup_insert_eq.
      * by apply IH2.
Qed.

Lemma parameters_names_NoDup g : NoDup (parameters g).*1.
Proof. apply (bool_decide_unpack _). vm_compute. reflexivity. Qed.

(** X17. The catalogue maps every name of the object literal to the
    prediction the constructor builds from its parameters, and no other
    name to anything; so a prediction found under a name carries that name,
    the host's action of that name, and an empty cache. *)
Theorem initPredictions_lookup (g : Globals) (name : string) :
  (∀ params, (name, params) ∈ parameters g →
     initPredictions g !! name = Some (new_Prediction g name params))
  ∧ (name ∉ (parameters g).*1 → initPredictions g !! name = None)
  ∧ (∀ p, initPredictions g !! name = Some p →
       Prediction.name p = name
       ∧ Prediction.action p = translateClassNames g name
       ∧ Prediction._ticks p = 0%Z).
Proof.
  unfold initPredictions.
  destruct (fold_insert_lookup (new_Prediction g) (parameters g) ∅ name)
    as [Hout Hin].
  split; [|split].
  - intros params Hp. apply Hin; [apply parameters_names_NoDup|done].
  - intros Hn. rewrite (Hout Hn). apply lookup_empty.
  - intros p Hp.
    destruct (decide (name ∈ (parameters g).*1)) as [Hn|Hn].
    + apply list_elem_of_fmap in Hn as ([n params] & Hname & Hn).
      cbn [fst] in Hname. subst n.
      rewrite (Hin (parameters_names_NoDup g) params Hn) in Hp.
      injection Hp as <-. repeat split; reflexivity.
    + rewrite (Hout Hn), lookup_empty in Hp. done.
Qed.

(** ** The walk over the segments *)

Lemma segment_before_walk fuel loopCost segment progress segment' remainder :
  segment_before fuel loopCost segment progress = Ok (segment', remainder) →
  ∃ n : nat,
    segment' = (segment + Z.of_nat n)%Z
    ∧ progress = remainder + cost_sum loopCost segment n
    ∧ (n ≤ fuel)%nat.
Proof.
  revert segment progress. induction fuel as [|fuel IH]; intros segment progress H;
    simpl in H; case_bool_decide as Hc; try done.
  - inversion H; subst. exists O. simpl. split; [lia|]. split; [ring|lia].
  - apply IH in H as (n & -> & Hp & Hn). exists (S n).
    split; [lia|]. split; [|lia]. simpl.
    replace progress with (progress - loopCost segment + loopCost segment) by ring.
    rewrite Hp. ring.
  - inversion H; subst. exists O. simpl. split; [lia|]. split; [ring|lia].
Qed.

(** X18. The first loop of [tick] conserves the progress: when it stops at a
    segment, that segment is some number n of segments further, the progress
    it started from is the remainder plus the costs of the n segments it
    crossed, and the remainder is below the cost of the segment reached. *)
Theorem segment_walk_conserves (fuel : nat) (loopCost : Z → Qc) (segment : Z)
    (progress : Qc) (segment' : Z) (remainder : Qc) :
  segment_before fuel loopCost segment progress = Ok (segment', remainder) →
  ∃ n : nat,
    segment' = (segment + Z.of_nat n)%Z
    ∧ progress = remainder + cost_sum loopCost segment n
    ∧ remainder < loopCost segment'.
Proof.
  intros H.
  destruct (segment_before_walk _ _ _ _ _ _ H) as (n & Hs & Hp & _).
  exists n. split; [done|]. split; [done|].
  by apply segment_before_remainder in H as [? _].
Qed.

Lemma Zc_succ (n : nat) : Zc (Z.of_nat (S n)) = Zc (Z.of_nat n) + 1.
Proof. rewrite Nat2Z.inj_succ, <- Z.add_1_r. by rewrite Zc_add, Zc_1. Qed.

Lemma Qc_pay (progress cost bound : Qc) :
  1 ≤ cost → progress < bound + 1 → progress - cost < bound.
Proof.
  intros Hc Hp.
  apply (Qcplus_lt_mono_r _ _ 1).
  apply Qcle_lt_trans with progress; [|done].
  replace progress with (progress - cost + cost) at 2 by ring.
  by apply Qcplus_le_mono_l.
Qed.

Lemma segment_before_total fuel loopCost segment progress :
  (∀ j, 1 ≤ loopCost j) →
  progress < Zc (Z.of_nat fuel) →
  ∃ segment' remainder,
    segment_before fuel loopCost segment progress = Ok (segment', remainder).
Proof.
  intros Hcost. revert segment progress.
  induction fuel as [|fuel IH]; intros segment progress Hp; simpl;
    case_bool_decide as Hc; eauto.
  - exfalso. change (Z.of_nat 0) with 0%Z in Hp. rewrite Zc_0 in Hp.
    apply (Qclt_not_le _ _ Hp). apply Qcle_trans with (loopCost segment); [|done].
    apply Qcle_trans with 1; [done|apply Hcost].
  - apply IH. apply Qc_pay; [apply Hcost|]. by rewrite <- Zc_succ.
Qed.

(** X19. The first loop of [tick] terminates when every segment costs at
    least 1: it needs no more iterations than a natural number above the
    progress. *)
Theorem segment_walk_terminates (fuel : nat) (loopCost : Z → Qc) (segment : Z)
    (progress : Qc) :
  (∀ j, 1 ≤ loopCost j) →
  progress < Zc (Z.of_nat fuel) →
  ∃ segment' remainder,
    segment_before fuel loopCost segment progress = Ok (segment', remainder).
Proof. apply segment_before_total. Qed.

(** X20. The first loop of [tick] never ends when no segment costs anything:
    with costs of 0 or less and a nonnegative progress, every bound on the
    number of iterations is exhausted. *)
Theorem free_segments_never_end (fuel : nat) (loopCost : Z → Qc) (segment : Z)
    (progress : Qc) :
  (∀ j, loopCost j ≤ 0) →
  0 ≤ progress →
  segment_before fuel loopCost segment progress = OutOfFuel.
Proof.
  intros Hcost. revert segment progress.
  induction fuel as [|fuel IH]; intros segment progress Hp; simpl;
    rewrite bool_decide_eq_true_2
      by (apply Qcle_trans with 0; [apply Hcost|done]); [done|].
  apply IH. unfold Qcminus. apply (proj1 (Qcle_minus_iff _ _)).
  apply Qcle_trans with 0; [apply Hcost|done].
Qed.

(** ** Termination of a tick *)

Lemma segment_before_more_fuel fuel fuel' loopCost segment progress res :
  segment_before fuel loopCost segment progress = Ok res →
  (fuel ≤ fuel')%nat →
  segment_before fuel' loopCost segment progress = Ok res.
Proof.
  revert fuel' segment progress.
  induction fuel as [|fuel IH]; intros fuel' segment progress H Hle; simpl in H;
    case_bool_decide as Hc; try done.
  - destruct fuel'; simpl; by rewrite bool_decide_eq_false_2.
  - destruct fuel' as [|fuel']; [lia|]. simpl.
    rewrite bool_decide_eq_true_2 by done. apply IH; [done|lia].
  - destruct fuel'; simpl; by rewrite bool_decide_eq_false_2.
Qed.

Lemma segment_after_total fuel l a mx progress segment pr r :
  (∀ pr segment, 1 ≤ Loop.cost l pr a segment) →
  progress < Zc (Z.of_nat fuel) →
  ∃ res, segment_after fuel l a mx progress segment pr r = Ok res.
Proof.
  intros Hcost. revert progress segment pr r.
  induction fuel as [|fuel IH]; intros progress segment pr r Hp; simpl;
    destruct (bool_decide (Loop.cost l pr a segment ≤ progress)) eqn:Hc;
    simpl; eauto.
  - apply bool_decide_eq_true in Hc.
    exfalso. change (Z.of_nat 0) with 0%Z in Hp. rewrite Zc_0 in Hp.
    apply (Qclt_not_le _ _ Hp). apply Qcle_trans with (Loop.cost l pr a segment); [|done].
    apply Qcle_trans with 1; [done|apply Hcost].
  - destruct (below segment mx); [|eauto].
    destruct (complete_loop l (Action.segments a) pr segment r)
      as [[pr1 segment1] r1].
    apply IH. apply Qc_pay; [apply Hcost|]. by rewrite <- Zc_succ.
Qed.

Lemma Zc_le_nat (n n' : nat) : (n ≤ n')%nat → Zc (Z.of_nat n) ≤ Zc (Z.of_nat n').
Proof.
  intros Hn. unfold Qcle, Zc.
  change (Qred (inject_Z (Z.of_nat n)) <= Qred (inject_Z (Z.of_nat n')))%Q.
  rewrite !Qred_correct. rewrite <- Zle_Qle. lia.
Qed.

Lemma Qc_below_nat (x : Qc) : ∃ n : nat, x < Zc (Z.of_nat n).
Proof.
  exists (Z.to_nat (Qceiling (this x) + 1)).
  unfold Qclt, Zc.
  change (this x < Qred (inject_Z (Z.of_nat (Z.to_nat (Qceiling (this x) + 1)))))%Q.
  rewrite Qred_correct.
  apply Qle_lt_trans with (inject_Z (Qceiling (this x))); [apply Qle_ceiling|].
  rewrite <- Zlt_Qlt. lia.
Qed.

(** X21. A tick of a loop action terminates when every segment costs at
    least 1 (whatever the progression): given the progression record and a
    nonzero cached tick count, the loop branch of [tick] returns for every
    sufficiently large bound on the iterations of its two loops. *)
Theorem tick_loop_terminates (p : Prediction.t) (l : Loop.t) (st : State.t)
    (pr : Progression.t) :
  State.progress st !! Prediction.name p = Some pr →
  Prediction._ticks p ≠ 0%Z →
  (∀ pr segment, 1 ≤ Loop.cost l pr (Prediction.action p) segment) →
  ∃ fuel0 : nat, ∀ fuel, (fuel0 ≤ fuel)%nat →
    ∃ t, tick_loop fuel p l st = Ok t.
Proof.
  intros Hpr Hn Hcost.
  destruct (Qc_below_nat (Progression.progress pr)) as [n1 Hn1].
  destruct (segment_before_total n1 (Loop.cost l pr (Prediction.action p)) 0%Z
              (Progression.progress pr) (Hcost pr) Hn1)
    as (segment0 & remainder & Hb).
  set (add := Loop.tick l pr (Prediction.action p) (State.stats st)
                (State.resources st) segment0
              * (Action.manaCost (Prediction.action p) / Zc (Prediction._ticks p))).
  destruct (Qc_below_nat (remainder + add)) as [n2 Hn2].
  exists (n1 `max` n2)%nat. intros fuel Hfuel.
  unfold tick_loop. rewrite Hpr.
  rewrite (segment_before_more_fuel n1 fuel _ _ _ _ Hb) by lia. simpl.
  rewrite (ticks_nonzero p Hn). simpl. fold add.
  destruct (segment_after_total fuel l (Prediction.action p)
              ((λ m, m (Prediction.action p) * Action.segments (Prediction.action p))%Z
                 <$> Loop.max l)
              (remainder + add) segment0
              (Progression.mk (Progression.progress pr + add)
                 (Progression.completed pr) (Progression.total pr))
              (State.resources st) Hcost)
    as ([[segment pr'] r'] & Ha).
  { apply Qclt_le_trans with (Zc (Z.of_nat n2)); [done|]. apply Zc_le_nat. lia. }
  rewrite Ha. simpl. eauto.
Qed.

(** ** The total of a pass without loop actions *)

Lemma mana_spent_app lg1 lg2 :
  mana_spent (lg1 ++ lg2) = (mana_spent lg1 + mana_spent lg2)%nat.
Proof.
  induction lg1 as [|ev lg1 IH]; simpl; [done|]. destruct ev; simpl; lia.
Qed.

Lemma mana_spent_repeat k : mana_spent (repeat ManaSpent k) = k.
Proof. induction k; simpl; lia. Qed.

Lemma mana_spent_closing p mana : mana_spent (closing_events p mana) = O.
Proof. unfold closing_events. by destruct (Prediction.effect p). Qed.

Lemma update_rep_plain_spent g fuel e e' :
  Prediction.loop (e_prediction e) = None →
  update_rep g fuel e = Ok e' →
  e_total e = Zc (Z.of_nat (mana_spent (e_log e))) →
  e_total e' = Zc (Z.of_nat (mana_spent (e_log e'))).
Proof.
  intros Hplain H Hinv.
  apply update_rep_Ok in H as (p' & st & lg & Hp & _ & _ & Htot & _ & Hlog).
  apply predict_Ok in Hp as (Hp' & Hrun).
  destruct (updateTicks_fields g (e_prediction e)
              (Prediction.action (e_prediction e)) (State.stats (e_state e)))
    as (_ & _ & _ & Hl & _).
  rewrite <- Hp' in Hl. rewrite Hplain in Hl.
  pose proof (predict_for_plain_log g fuel p' Hl _ _ _ _ _ _ Hrun) as Hlg.
  apply (predict_for_plain_state g _ fuel p' _ _ _ _ _ Hl) in Hrun as (Hm & _).
  rewrite Htot, Hm, Hlog, Hlg, Hinv.
  rewrite !mana_spent_app, mana_spent_repeat, mana_spent_closing.
  rewrite Z.sub_0_r.
  replace (Z.of_nat (mana_spent (e_log e) + Z.to_nat (Prediction._ticks p') + 0))
    with (Z.of_nat (mana_spent (e_log e)) + Z.max 0 (Prediction._ticks p'))%Z by lia.
  rewrite Zc_add. ring.
Qed.

Lemma update_reps_plain_spent g fuel loops e e' :
  Prediction.loop (e_prediction e) = None →
  update_reps g fuel loops e = Ok e' →
  e_total e = Zc (Z.of_nat (mana_spent (e_log e))) →
  e_total e' = Zc (Z.of_nat (mana_spent (e_log e'))).
Proof.
  revert e. induction loops as [|loops IH]; intros e Hplain H Hinv; simpl in H.
  - by inversion H; subst.
  - apply bind_Ok in H as (e1 & H1 & H).
    apply (IH e1); [|done|by eapply update_rep_plain_spent].
    apply update_rep_progress in H1 as (_ & Hl & _). by rewrite Hl.
Qed.

Lemma update_each_plain_spent g fuel actions m m' :
  (∀ k p, predictions m !! k = Some p → Prediction.loop p = None) →
  update_each g fuel m actions = Ok m' →
  total m = Zc (Z.of_nat (mana_spent (log m))) →
  total m' = Zc (Z.of_nat (mana_spent (log m'))).
Proof.
  revert m. induction actions as [|la actions IH]; intros m Hplain H Hinv;
    simpl in H.
  - by inversion H; subst.
  - apply bind_Ok in H as (m1 & H1 & H).
    apply (IH m1); [|done|].
    + intros k p1 Hk.
      pose proof (update_entry_caches _ _ _ _ _ k H1) as Hc. rewrite Hk in Hc.
      destruct Hc as (p0 & Hp0 & ->). by apply (Hplain k p0).
    + unfold update_entry in H1.
      destruct (predictions m !! la_name la) as [p|] eqn:Hp;
        [|by inversion H1; subst].
      apply bind_Ok in H1 as (e & He & H1). inversion H1; subst; simpl.
      apply update_reps_plain_spent in He; [done| |done].
      simpl. by apply (Hplain (la_name la)).
Qed.

(** X22. In a pass over predictions without loop descriptor, the total is
    the number of mana decrements: every simulated tick costs one mana, and
    nothing else enters the total. *)
Theorem plain_pass_total (g : Globals) (fuel : nat)
    (preds : gmap string Prediction.t) (actions : list ListedAction) (m : Machine) :
  (∀ k p, preds !! k = Some p → Prediction.loop p = None) →
  update g fuel preds actions = Ok m →
  total m = Zc (Z.of_nat (mana_spent (log m))).
Proof.
  intros Hplain H. unfold update in H.
  apply update_each_plain_spent in H; [done|done|].
  symmetry. exact Zc_0.
Qed.

(** ** Exhausted dungeons *)

Lemma list_at_beyond {A} (l : list A) (i : Z) :
  (Z.of_nat (length l) ≤ i)%Z → list_at l i = None.
Proof.
  intros Hi. unfold list_at. case_bool_decide; [done|].
  apply lookup_ge_None. lia.
Qed.

Lemma loops_done_ge (pr : Progression.t) (a : Action.t) (n : Z) :
  (0 < Action.segments a)%Z →
  (Action.segments a * n ≤ Progression.completed pr)%Z →
  (n ≤ loops_done pr a 0)%Z.
Proof.
  intros Hs Hc. unfold loops_done, Math_floor.
  rewrite <- (Qfloor_Z n). apply Qfloor_resp_le.
  rewrite Z.add_0_r.
  assert (E : (this (Zc (Progression.completed pr) / Zc (Action.segments a)
                     + Q2Qc (1 # 10000000))
               == inject_Z (Progression.completed pr) / inject_Z (Action.segments a)
                  + (1 # 10000000))%Q).
  { unfold Qcplus, Qcdiv, Qcmult, Qcinv, Zc, Q2Qc. simpl.
    rewrite !Qred_correct. reflexivity. }
  rewrite E.
  apply Qle_trans
    with (inject_Z (Progression.completed pr) / inject_Z (Action.segments a))%Q.
  - apply Qle_shift_div_l.
    + change 0%Q with (inject_Z 0). rewrite <- Zlt_Qlt. done.
    + rewrite <- inject_Z_mult, <- Zle_Qle. lia.
  - rewrite <- (Qplus_0_r (_ / _)) at 1. apply Qplus_le_r. done.
Qed.

(** X23. A dungeon is exhausted once its segments are all completed: with a
    positive number of segments per floor, as soon as the completed segments
    reach that number times the number of floors, the floor looked up by the
    dungeon loops is not in the dungeon. *)
Theorem dungeon_exhausted (g : Globals) (pr : Progression.t) (a : Action.t) :
  (0 < Action.segments a)%Z →
  (Action.segments a * Z.of_nat (length (dungeon g a))
   ≤ Progression.completed pr)%Z →
  dungeon_floor g pr a = None.
Proof.
  intros Hs Hc. unfold dungeon_floor. apply list_at_beyond.
  by apply loops_done_ge.
Qed.

(** * Instances on the example host *)

Lemma the_Ok {A} (d : A) (r : result A) :
  Example.succeeded r = true → r = Ok (Example.the d r).
Proof. by destruct r. Qed.

Lemma the_Ok_pair {A B} (d : A * B) (r : result (A * B)) :
  Example.succeeded r = true → r = Ok ((Example.the d r).1, (Example.the d r).2).
Proof. destruct r as [[a b]| |]; done. Qed.

Import Example.

(** C1, counterexample: two runs of Wander leave the mana at -250 and the
    row invalid; ten runs of Smash Pots bring it back to 250, each checked
    while negative; one more Wander ends at 0, and its row is valid again:
    the flag has returned to valid after an invalid entry. *)
Lemma validity_flag_returns :
  ∃ m,
    update host 10 preds [listed "Wander" 2; listed "Smash Pots" 10; listed "Wander" 1]
    = Ok m
    ∧ row_isValid <$> rows m = [false; false; true].
Proof.
  eexists. split; [apply (the_Ok fresh); vm_compute; reflexivity|].
  vm_compute. reflexivity.
Qed.

Lemma isValid_of_entry_witness :
  predictions (initial_machine host preds [listed "Wander" 2]) !! "Wander" = Some wander
  ∧ ∃ evs,
      log (the fresh
             (update_entry host 10 (initial_machine host preds [listed "Wander" 2])
                (listed "Wander" 2)))
      = [] ++ evs
      ∧ forallb mana_ok evs = false.
Proof.
  assert (H1 : predictions (initial_machine host preds [listed "Wander" 2])
               !! la_name (listed "Wander" 2) = Some wander)
    by (vm_compute; reflexivity).
  split; [exact H1|].
  assert (H2 : update_entry host 10 (initial_machine host preds [listed "Wander" 2])
                 (listed "Wander" 2)
               = Ok (the fresh
                       (update_entry host 10
                          (initial_machine host preds [listed "Wander" 2])
                          (listed "Wander" 2))))
    by (apply the_Ok; vm_compute; reflexivity).
  destruct (isValid_of_entry host 10 _ _ _ wander H1 H2) as (evs & Hlog & Hrows).
  exists evs. split; [exact Hlog|].
  apply (f_equal (fmap row_isValid)) in Hrows.
  rewrite fmap_app in Hrows.
  vm_compute in Hrows. by inversion Hrows.
Defined.

(** C2, at the failing input: "Meet People" on the example host has no stat
    weight and a mana cost of 50. *)
Lemma zero_ticks_run_raises_witness :
  Action.manaCost (Prediction.action meetPeople) = Zc 50
  ∧ (updateTicks host meetPeople (Prediction.action meetPeople)
       (State.stats (initial_state host []))).2 = 0%Z
  ∧ predict host 10 meetPeople (initial_state host []) [] = TypeError.
Proof.
  split; [vm_compute; reflexivity|].
  apply zero_ticks_run_raises.
  - intros i w H. change (Action.stats (Prediction.action meetPeople)) with (∅ : gmap string Qc) in H.
    by rewrite lookup_empty in H.
  - vm_compute. reflexivity.
Defined.

(** C2, the same input through [update]: the pass raises. *)
Lemma zero_ticks_update_raises :
  update host 10 preds [listed "Meet People" 1] = TypeError.
Proof. vm_compute. reflexivity. Qed.

(** C4, counterexample: one run of Fight Monsters (5 ticks, each worth 4000
    of progress, segments costing 10000, 10000 and 20000) ends with a
    persisted progress of 20000 and no loop completed: the progress is not
    below the cost of any segment of the loop, in particular not below the
    20000 of the current one, the third. *)
Lemma progress_exceeds_segment_cost :
  ∃ m pr,
    update host 10 preds [listed "Fight Monsters" 1] = Ok m
    ∧ State.progress (state m) !! "Fight Monsters" = Some pr
    ∧ Progression.progress pr = Zc 20000
    ∧ Loop.cost (fightMonsters host) pr fightMonsters_action <$> [0; 1; 2]%Z
      = [Zc 10000; Zc 10000; Zc 20000]
    ∧ ¬ Progression.progress pr < Loop.cost (fightMonsters host) pr fightMonsters_action 2.
Proof.
  exists (the fresh (update host 10 preds [listed "Fight Monsters" 1])),
    (Progression.mk (Zc 20000) 0 0).
  split; [apply the_Ok; vm_compute; reflexivity|].
  split; [vm_compute; reflexivity|].
  split; [reflexivity|].
  split; [vm_compute; reflexivity|].
  apply (bool_decide_unpack _). vm_compute. reflexivity.
Qed.

Lemma progress_within_loop_witness :
  Prediction.loop (running fight) = Some (fightMonsters host)
  ∧ State.progress (e_state (first_rep fight)) !! Prediction.name (running fight)
    = Some (Progression.mk 0 0 0)
  ∧ ∃ t pr',
      State.progress
        (the (e_state (first_rep fight), false)
           (tick host 10 (running fight) (e_state (first_rep fight)))).1
      !! "Fight Monsters" = Some pr'
      ∧ (Progression.progress pr' = 0 + t_additionalProgress t
         ∨ Progression.progress pr' = 0).
Proof.
  assert (H1 : Prediction.loop (running fight) = Some (fightMonsters host))
    by reflexivity.
  assert (H2 : State.progress (e_state (first_rep fight))
               !! Prediction.name (running fight) = Some (Progression.mk 0 0 0))
    by (vm_compute; reflexivity).
  assert (H3 : tick host 10 (running fight) (e_state (first_rep fight))
               = Ok ((the (e_state (first_rep fight), false)
                        (tick host 10 (running fight) (e_state (first_rep fight)))).1,
                     (the (e_state (first_rep fight), false)
                        (tick host 10 (running fight) (e_state (first_rep fight)))).2))
    by (apply the_Ok_pair; vm_compute; reflexivity).
  split; [exact H1|]. split; [exact H2|].
  destruct (progress_within_loop host 10 _ _ _ _ _ _ H1 H2 H3)
    as (s & t & pr' & _ & _ & Hpr' & Hcases & _).
  exists t, pr'. split; [exact Hpr'|].
  destruct Hcases as [[_ H]|[_ H]]; [left; exact H|right; exact H].
Defined.

Lemma completed_follows_total_witness :
  (0 < Action.segments (Prediction.action (running fight)))%Z
  ∧ ∃ pr',
      State.progress
        (the (e_state (first_rep fight), false)
           (tick host 10 (running fight) (e_state (first_rep fight)))).1
      !! "Fight Monsters" = Some pr'
      ∧ (0 ≤ Progression.total pr')%Z.
Proof.
  assert (H0 : (0 < Action.segments (Prediction.action (running fight)))%Z)
    by (vm_compute; reflexivity).
  assert (H1 : Prediction.loop (running fight) = Some (fightMonsters host))
    by reflexivity.
  assert (H2 : State.progress (e_state (first_rep fight))
               !! Prediction.name (running fight) = Some (Progression.mk 0 0 0))
    by (vm_compute; reflexivity).
  assert (H3 : tick host 10 (running fight) (e_state (first_rep fight))
               = Ok ((the (e_state (first_rep fight), false)
                        (tick host 10 (running fight) (e_state (first_rep fight)))).1,
                     (the (e_state (first_rep fight), false)
                        (tick host 10 (running fight) (e_state (first_rep fight)))).2))
    by (apply the_Ok_pair; vm_compute; reflexivity).
  split; [exact H0|].
  destruct (completed_follows_total host 10 _ _ _ _ _ _ H0 H1 H2 H3)
    as (pr' & Hpr' & Htot & _).
  exists pr'. split; [exact Hpr'|exact Htot].
Defined.

(** C5, counterexample: on a host without Magic skill a tick of Heal The
    Sick makes no progress and returns "stop": the run computed 5 ticks and
    decrements the mana once. *)
Lemma early_stop_spends_less :
  ∃ m,
    update host 10 preds [listed "Heal The Sick" 1] = Ok m
    ∧ (updateTicks host healSick (Prediction.action healSick)
         (State.stats (initial_state host ["rep"]))).2 = 5%Z
    ∧ log m = [ManaSpent; ManaChecked (Zc 249)].
Proof.
  exists (the fresh (update host 10 preds [listed "Heal The Sick" 1])).
  split; [apply the_Ok; vm_compute; reflexivity|].
  split; vm_compute; reflexivity.
Qed.

Lemma run_mana_decrements_witness :
  update_rep host 10 (first_rep healSick)
  = Ok (the (first_rep healSick) (update_rep host 10 (first_rep healSick)))
  ∧ ∃ (k : nat) (mana : Qc),
      e_log (the (first_rep healSick) (update_rep host 10 (first_rep healSick)))
      = [] ++ repeat ManaSpent k ++ closing_events healSick mana
      ∧ (1 ≤ k)%nat.
Proof.
  assert (H : update_rep host 10 (first_rep healSick)
              = Ok (the (first_rep healSick) (update_rep host 10 (first_rep healSick))))
    by (apply the_Ok; vm_compute; reflexivity).
  split; [exact H|].
  destruct (run_mana_decrements host 10 _ _ H) as (k & mana & Hlog & _ & Hpos & _).
  exists k, mana. split; [exact Hlog|].
  apply Hpos. vm_compute. reflexivity.
Defined.


Lemma total_before_effect_witness :
  update_rep host 10 (first_rep smashPots)
  = Ok (the (first_rep smashPots) (update_rep host 10 (first_rep smashPots)))
  ∧ ∃ e2,
      update_rep host 10 (entry_with_top_effect None (first_rep smashPots)) = Ok e2
      ∧ e_total e2
        = e_total (the (first_rep smashPots) (update_rep host 10 (first_rep smashPots))).
Proof.
  assert (H : update_rep host 10 (first_rep smashPots)
              = Ok (the (first_rep smashPots) (update_rep host 10 (first_rep smashPots))))
    by (apply the_Ok; vm_compute; reflexivity).
  split; [exact H|].
  destruct (total_before_effect host 10 _ _ H) as (p' & st & lg & _ & _ & _ & Hf).
  exact (Hf None).
Defined.

Lemma plain_run_experience_witness :
  (0 < (updateTicks host wander (Prediction.action wander)
          (State.stats (initial_state host []))).2)%Z
  ∧ ∃ p' st' lg',
      predict host 10 wander (initial_state host []) [] = Ok (p', st', lg')
      ∧ State.stats st' !! "Per" = Some (0 + q 2 10 * 1 * Zc 250 * 1).
Proof.
  assert (H : (0 < (updateTicks host wander (Prediction.action wander)
                      (State.stats (initial_state host []))).2)%Z)
    by (vm_compute; reflexivity).
  split; [exact H|].
  destruct (plain_run_experience host 10 wander (initial_state host []) [] "Per"
              (q 2 10) 0
              ltac:(apply (bool_decide_unpack _); vm_compute; reflexivity)
              ltac:(apply (bool_decide_unpack _); vm_compute; reflexivity)
              eq_refl
              ltac:(vm_compute; reflexivity)
              ltac:(vm_compute; reflexivity)
              H)
    as (p' & st' & lg' & Hp & _ & Hs).
  exists p', st', lg'. split; [exact Hp|exact Hs].
Defined.


(** ** Instances of the further properties *)

Lemma the_Ok_triple {A B C} (d : A * B * C) (r : result (A * B * C)) :
  succeeded r = true → r = Ok ((the d r).1.1, (the d r).1.2, (the d r).2).
Proof. destruct r as [[[a b] c]| |]; done. Qed.

Lemma wander_weights_nonneg :
  ∀ i w, Action.stats (Prediction.action wander) !! i = Some w → 0 ≤ w.
Proof.
  change (map_Forall (λ _ w, 0 ≤ w) (Action.stats (Prediction.action wander))).
  apply (bool_decide_unpack _). vm_compute. reflexivity.
Defined.

Lemma updateTicks_nonneg_witness :
  0 ≤ Action.manaCost (Prediction.action wander)
  ∧ (0 ≤ (updateTicks host wander (Prediction.action wander)
            (State.stats (initial_state host []))).2)%Z.
Proof.
  assert (H : 0 ≤ Action.manaCost (Prediction.action wander))
    by (apply (bool_decide_unpack _); vm_compute; reflexivity).
  split; [exact H|].
  apply updateTicks_nonneg; [exact H|exact wander_weights_nonneg|].
  intros e. apply (bool_decide_unpack _). vm_compute. reflexivity.
Defined.

Lemma updateTicks_agree_witness :
  (updateTicks host wander (Prediction.action wander)
     (State.stats (initial_state host []))).2
  = (updateTicks host wander (Prediction.action wander)
       (<["Int" := Zc 5]> (State.stats (initial_state host [])))).2.
Proof.
  apply updateTicks_agree. intros i Hi.
  destruct (decide (i = "Int")) as [->|Hne].
  - exfalso. revert Hi. apply (bool_decide_unpack _). vm_compute. reflexivity.
  - by rewrite lookup_insert_ne.
Defined.

Lemma exp_keeps_keys_witness :
  exp host (running wander) (Prediction.action wander)
    (State.stats (initial_state host []))
  = Ok (the ∅ (exp host (running wander) (Prediction.action wander)
                 (State.stats (initial_state host []))))
  ∧ ∀ i,
      is_Some (the ∅ (exp host (running wander) (Prediction.action wander)
                        (State.stats (initial_state host []))) !! i)
      ↔ is_Some (State.stats (initial_state host []) !! i).
Proof.
  assert (H : exp host (running wander) (Prediction.action wander)
                (State.stats (initial_state host []))
              = Ok (the ∅ (exp host (running wander) (Prediction.action wander)
                             (State.stats (initial_state host [])))))
    by (apply the_Ok; vm_compute; reflexivity).
  split; [exact H|].
  exact (proj1 (exp_keeps_keys host _ _ _ _ H)).
Defined.

Lemma experience_never_decreases_witness :
  State.stats (initial_state host []) !! "Per" = Some 0
  ∧ ∃ e', State.stats wander_run_result.1.2 !! "Per" = Some e' ∧ 0 ≤ e'.
Proof.
  assert (H0 : State.stats (initial_state host []) !! "Per" = Some 0)
    by (vm_compute; reflexivity).
  assert (H1 : predict host 10 wander (initial_state host []) []
               = Ok (wander_run_result.1.1, wander_run_result.1.2, wander_run_result.2))
    by (unfold wander_run_result, wander_run; apply the_Ok_triple;
        vm_compute; reflexivity).
  split; [exact H0|].
  apply (experience_never_decreases host 10 wander _ (initial_state host []) _ [] _
           ltac:(apply (bool_decide_unpack _); vm_compute; reflexivity)
           ltac:(apply (bool_decide_unpack _); vm_compute; reflexivity)
           wander_weights_nonneg
           ltac:(intros i; apply (bool_decide_unpack _); vm_compute; reflexivity)
           H1 "Per" 0 H0).
Defined.

Lemma no_ticks_entry_raises_witness :
  predictions fresh !! "Meet People" = Some meetPeople
  ∧ update_each host 10 fresh [listed "Meet People" 1; listed "Wander" 1] = TypeError.
Proof.
  assert (H : predictions fresh !! la_name (listed "Meet People" 1) = Some meetPeople)
    by (vm_compute; reflexivity).
  split; [exact H|].
  apply (no_ticks_entry_raises host 10 fresh (listed "Meet People" 1) meetPeople
           [listed "Wander" 1] H).
  - vm_compute. discriminate.
  - vm_compute. reflexivity.
Defined.

Lemma plain_run_outcome_witness :
  (updateTicks host wander (Prediction.action wander)
     (State.stats (initial_state host []))).2 ≠ 0%Z
  ∧ ∃ st',
      predict host 10 wander (initial_state host []) []
      = Ok (Prediction.set_ticks
              (updateTicks host wander (Prediction.action wander)
                 (State.stats (initial_state host []))).2 wander,
            st',
            [] ++ repeat ManaSpent
                    (Z.to_nat (updateTicks host wander (Prediction.action wander)
                                 (State.stats (initial_state host []))).2))
      ∧ State.progress st' = State.progress (initial_state host []).
Proof.
  assert (H : (updateTicks host wander (Prediction.action wander)
                 (State.stats (initial_state host []))).2 ≠ 0%Z)
    by (vm_compute; discriminate).
  split; [exact H|].
  destruct (plain_run_outcome host 10 wander (initial_state host []) [] eq_refl H)
    as (st' & Hp & _ & _ & Hprog & _).
  exists st'. split; [exact Hp|exact Hprog].
Defined.

Lemma plain_repetition_total_witness :
  update_rep host 10 (first_rep smashPots)
  = Ok (the (first_rep smashPots) (update_rep host 10 (first_rep smashPots)))
  ∧ e_total (the (first_rep smashPots) (update_rep host 10 (first_rep smashPots)))
    = 0 + Zc (Z.max 0 (updateTicks host smashPots (Prediction.action smashPots)
                         (State.stats (e_state (first_rep smashPots)))).2).
Proof.
  assert (H : update_rep host 10 (first_rep smashPots)
              = Ok (the (first_rep smashPots) (update_rep host 10 (first_rep smashPots))))
    by (apply the_Ok; vm_compute; reflexivity).
  split; [exact H|].
  exact (plain_repetition_total host 10 (first_rep smashPots) _ eq_refl H).
Defined.

Lemma healSick_makes_no_progress :
  ∀ s segment,
    Loop.tick (healTheSick host) (Progression.mk 0 0 0)
      (Prediction.action (running healSick)) s
      (State.resources (e_state (first_rep healSick))) segment = 0.
Proof.
  intros s segment.
  change (getSkillLevel host "Magic"
          * Math_sqrt host (1 + Zc 0 / Zc 100)
          * loop_stat_factor host (Progression.mk 0 0 0)
              (Prediction.action (running healSick)) s segment = 0).
  replace (getSkillLevel host "Magic") with (0 : Qc) by (vm_compute; reflexivity).
  ring.
Defined.

Lemma idle_tick_stops_witness :
  State.progress (e_state (first_rep healSick)) !! Prediction.name (running healSick)
  = Some (Progression.mk 0 0 0)
  ∧ (first_tick_result healSick).2 = false.
Proof.
  assert (H2 : State.progress (e_state (first_rep healSick))
               !! Prediction.name (running healSick) = Some (Progression.mk 0 0 0))
    by (vm_compute; reflexivity).
  assert (H3 : tick host 10 (running healSick) (e_state (first_rep healSick))
               = Ok ((first_tick_result healSick).1, (first_tick_result healSick).2))
    by (unfold first_tick_result, first_tick; apply the_Ok_pair;
        vm_compute; reflexivity).
  split; [exact H2|].
  exact (proj1 (idle_tick_stops host 10 (running healSick) (healTheSick host)
                  (e_state (first_rep healSick)) _ _ (Progression.mk 0 0 0)
                  eq_refl H2 healSick_makes_no_progress H3)).
Defined.

Lemma exhausted_dungeon_stops_witness :
  dungeon_floor host (Progression.mk 0 0 0) (Prediction.action (running dungeon1)) = None
  ∧ (first_tick_result dungeon1).2 = false.
Proof.
  assert (H2 : State.progress (e_state (first_rep dungeon1))
               !! Prediction.name (running dungeon1) = Some (Progression.mk 0 0 0))
    by (vm_compute; reflexivity).
  assert (H3 : dungeon_floor host (Progression.mk 0 0 0)
                 (Prediction.action (running dungeon1)) = None)
    by (vm_compute; reflexivity).
  assert (H4 : tick host 10 (running dungeon1) (e_state (first_rep dungeon1))
               = Ok ((first_tick_result dungeon1).1, (first_tick_result dungeon1).2))
    by (unfold first_tick_result, first_tick; apply the_Ok_pair;
        vm_compute; reflexivity).
  split; [exact H3|].
  exact (proj1 (exhausted_dungeon_stops host 10 (running dungeon1)
                  (e_state (first_rep dungeon1)) _ _ (Progression.mk 0 0 0)
                  (or_introl eq_refl) H2 H3 H4)).
Defined.

Lemma update_touches_caches_only_witness :
  update host 10 preds [listed "Wander" 1]
  = Ok (the fresh (update host 10 preds [listed "Wander" 1]))
  ∧ (predictions (the fresh (update host 10 preds [listed "Wander" 1])) !! "Fly" = None
     ↔ preds !! "Fly" = None).
Proof.
  assert (H : update host 10 preds [listed "Wander" 1]
              = Ok (the fresh (update host 10 preds [listed "Wander" 1])))
    by (apply the_Ok; vm_compute; reflexivity).
  split; [exact H|].
  exact (proj1 (update_touches_caches_only host 10 preds _ _ H "Fly")).
Defined.


Lemma entry_without_repetition_witness :
  predictions fresh !! "Wander" = Some wander
  ∧ succeeded (update_entry host 10 fresh (listed "Wander" 0)) = true.
Proof.
  assert (H : predictions fresh !! la_name (listed "Wander" 0) = Some wander)
    by (vm_compute; reflexivity).
  split; [exact H|].
  rewrite (entry_without_repetition host 10 fresh (listed "Wander" 0) wander H
             ltac:(vm_compute; discriminate)).
  reflexivity.
Defined.

Lemma entry_progress_frame_witness :
  predictions fresh !! "Wander" = Some wander
  ∧ State.progress
      (state (the fresh (update_entry host 10 fresh (listed "Wander" 1))))
    = State.progress (state fresh).
Proof.
  assert (H : predictions fresh !! la_name (listed "Wander" 1) = Some wander)
    by (vm_compute; reflexivity).
  assert (H1 : update_entry host 10 fresh (listed "Wander" 1)
               = Ok (the fresh (update_entry host 10 fresh (listed "Wander" 1))))
    by (apply the_Ok; vm_compute; reflexivity).
  split; [exact H|].
  destruct (entry_progress_frame host 10 fresh _ (listed "Wander" 1) wander H H1)
    as (_ & _ & Hplain).
  exact (Hplain eq_refl).
Defined.

Lemma update_keeps_stat_names_witness :
  update host 10 preds [listed "Wander" 1]
  = Ok (the fresh (update host 10 preds [listed "Wander" 1]))
  ∧ is_Some (State.stats (state (the fresh (update host 10 preds [listed "Wander" 1])))
             !! "Per").
Proof.
  assert (H : update host 10 preds [listed "Wander" 1]
              = Ok (the fresh (update host 10 preds [listed "Wander" 1])))
    by (apply the_Ok; vm_compute; reflexivity).
  split; [exact H|].
  apply (update_keeps_stat_names host 10 preds _ _ H "Per").
  apply (bool_decide_unpack _). vm_compute. reflexivity.
Defined.

Lemma segment_walk_conserves_witness :
  segment_before 10 (λ _, Zc 10) 0 (Zc 25)
  = Ok ((the (0%Z, 0) (segment_before 10 (λ _, Zc 10) 0 (Zc 25))).1,
        (the (0%Z, 0) (segment_before 10 (λ _, Zc 10) 0 (Zc 25))).2)
  ∧ ∃ n : nat,
      (the (0%Z, 0) (segment_before 10 (λ _, Zc 10) 0 (Zc 25))).1 = (0 + Z.of_nat n)%Z.
Proof.
  assert (H : segment_before 10 (λ _, Zc 10) 0 (Zc 25)
              = Ok ((the (0%Z, 0) (segment_before 10 (λ _, Zc 10) 0 (Zc 25))).1,
                    (the (0%Z, 0) (segment_before 10 (λ _, Zc 10) 0 (Zc 25))).2))
    by (apply the_Ok_pair; vm_compute; reflexivity).
  split; [exact H|].
  destruct (segment_walk_conserves _ _ _ _ _ _ H) as (n & Hn & _).
  exists n. exact Hn.
Defined.

Lemma segment_walk_terminates_witness :
  Zc 25 < Zc (Z.of_nat 26)
  ∧ ∃ segment' remainder,
      segment_before 26 (λ _, Zc 10) 0 (Zc 25) = Ok (segment', remainder).
Proof.
  assert (H : Zc 25 < Zc (Z.of_nat 26))
    by (apply (bool_decide_unpack _); vm_compute; reflexivity).
  split; [exact H|].
  apply segment_walk_terminates; [|exact H].
  intros j. apply (bool_decide_unpack _). vm_compute. reflexivity.
Defined.

Lemma free_segments_never_end_witness :
  0 ≤ Zc 25 ∧ segment_before 1000 (λ _, 0) 0 (Zc 25) = OutOfFuel.
Proof.
  assert (H : 0 ≤ Zc 25) by (apply (bool_decide_unpack _); vm_compute; reflexivity).
  split; [exact H|].
  apply free_segments_never_end; [|exact H].
  intros j. apply (bool_decide_unpack _). vm_compute. reflexivity.
Defined.

Lemma fight_costs_at_least_one :
  ∀ pr segment,
    1 ≤ Loop.cost (fightMonsters host) pr (Prediction.action (running fight)) segment.
Proof.
  intros pr segment.
  change (1 ≤ Zc (fib (Z.to_nat
                         (Math_floor
                            (Zc (Progression.completed pr + segment)
                             - Zc (Progression.completed pr)
                               / Zc (Action.segments (Prediction.action (running fight)))
                             + Q2Qc (1 # 10000000))))).1
              * Zc 10000).
  generalize (Z.to_nat
                (Math_floor
                   (Zc (Progression.completed pr + segment)
                    - Zc (Progression.completed pr)
                      / Zc (Action.segments (Prediction.action (running fight)))
                    + Q2Qc (1 # 10000000)))).
  intros n.
  assert (Hfib : (1 ≤ (fib n).1 ∧ 1 ≤ (fib n).2)%Z).
  { induction n as [|n IH]; simpl; [lia|]. destruct (fib n) as [a b]. simpl in *. lia. }
  apply Qcle_trans with (1 * Zc 10000).
  - apply (bool_decide_unpack _). vm_compute. reflexivity.
  - apply Qcmult_le_compat_r.
    + rewrite <- Zc_1. unfold Qcle, Zc.
      change (Qred (inject_Z 1) <= Qred (inject_Z (fib n).1))%Q.
      rewrite !Qred_correct, <- Zle_Qle. lia.
    + apply (bool_decide_unpack _). vm_compute. reflexivity.
Defined.

Lemma tick_loop_terminates_witness :
  State.progress (e_state (first_rep fight)) !! Prediction.name (running fight)
  = Some (Progression.mk 0 0 0)
  ∧ ∃ fuel0 : nat, ∀ fuel, (fuel0 ≤ fuel)%nat →
      ∃ t, tick_loop fuel (running fight) (fightMonsters host)
             (e_state (first_rep fight)) = Ok t.
Proof.
  assert (H : State.progress (e_state (first_rep fight))
              !! Prediction.name (running fight) = Some (Progression.mk 0 0 0))
    by (vm_compute; reflexivity).
  split; [exact H|].
  apply (tick_loop_terminates (running fight) (fightMonsters host)
           (e_state (first_rep fight)) (Progression.mk 0 0 0) H).
  - vm_compute. discriminate.
  - exact fight_costs_at_least_one.
Defined.

Lemma wander_has_no_loop (p : Prediction.t) :
  ({[ "Wander" := wander ]} : gmap string Prediction.t) !! "Wander" = Some p →
  Prediction.loop p = None.
Proof. rewrite lookup_singleton_eq. by intros [= <-]. Defined.

Lemma plain_pass_total_witness :
  update host 10 {[ "Wander" := wander ]} [listed "Wander" 2]
  = Ok (the fresh (update host 10 {[ "Wander" := wander ]} [listed "Wander" 2]))
  ∧ total (the fresh (update host 10 {[ "Wander" := wander ]} [listed "Wander" 2]))
    = Zc (Z.of_nat
            (mana_spent
               (log (the fresh
                       (update host 10 {[ "Wander" := wander ]} [listed "Wander" 2]))))).
Proof.
  assert (H : update host 10 {[ "Wander" := wander ]} [listed "Wander" 2]
              = Ok (the fresh
                      (update host 10 {[ "Wander" := wander ]} [listed "Wander" 2])))
    by (apply the_Ok; vm_compute; reflexivity).
  split; [exact H|].
  apply (plain_pass_total host 10 {[ "Wander" := wander ]} [listed "Wander" 2] _); [|exact H].
  intros k p Hk. destruct (decide (k = "Wander")) as [->|Hne].
  - by apply wander_has_no_loop.
  - by rewrite lookup_singleton_ne in Hk.
Defined.

Lemma dungeon_exhausted_witness :
  (0 < Action.segments smallDungeon_action)%Z
  ∧ dungeon_floor host (Progression.mk 0 0 0) smallDungeon_action = None.
Proof.
  assert (H : (0 < Action.segments smallDungeon_action)%Z) by (vm_compute; reflexivity).
  split; [exact H|].
  apply dungeon_exhausted; [exact H|]. vm_compute. discriminate.
Defined.
